(** * web_ide: the workspace-sandboxed terminal bridge

    A shallow embedding of the three revisions of [server.js]:

    - [src/server.js]: the first revision, project terminals only;
    - [src/unnamed/part_000], lines 1-237: the single-workspace revision
      ([resolveSafe], [toRel], file APIs, terminal);
    - [src/unnamed/part_000], lines 238-521: the project-scoped revision
      ([resolveWorkspacePath], file APIs, terminal).

    JavaScript strings are [string]s, a thrown exception is the [Throw]
    branch of a completion, and the calls into [ws], [node-pty] and [fs] act
    on an explicit [world].  The functions of Node's [path] module are those
    of its POSIX flavour ([path.sep] is ["/"]). *)

From Stdlib Require Import String Ascii List Bool ZArith PrimFloat Uint63.
Import ListNotations.
Open Scope string_scope.

(** ** Strings as JavaScript uses them *)

Module JsString.

Definition slash : ascii := "/"%char.

(** [s.split('/')]: never empty, one more piece than there are slashes. *)
Fixpoint split (s : string) : list string :=
  match s with
  | EmptyString => [EmptyString]
  | String c rest =>
      if Ascii.eqb c slash then EmptyString :: split rest
      else match split rest with
           | piece :: pieces => String c piece :: pieces
           | [] => [String c EmptyString]
           end
  end.

(** [pieces.join('/')]. *)
Fixpoint join (pieces : list string) : string :=
  match pieces with
  | [] => EmptyString
  | [piece] => piece
  | piece :: more => piece ++ String slash (join more)
  end.

(** [s.startsWith(p)]. *)
Definition startsWith (s p : string) : bool := String.prefix p s.

(** [s.replace(/^\/+/, '')]: drop every leading slash. *)
Fixpoint strip_leading_slashes (s : string) : string :=
  match s with
  | String c rest => if Ascii.eqb c slash then strip_leading_slashes rest else s
  | EmptyString => EmptyString
  end.

(** [s || d] on strings: the empty string is falsy. *)
Definition or_default (s d : string) : string :=
  match s with EmptyString => d | _ => s end.

(** [n] slashes in a row. *)
Fixpoint slashes (n : nat) : string :=
  match n with O => EmptyString | S k => String slash (slashes k) end.

Fixpoint has_slash (s : string) : bool :=
  match s with
  | EmptyString => false
  | String c rest => Ascii.eqb c slash || has_slash rest
  end.

End JsString.

(** ** Node's [path] module, POSIX flavour

    The library works on characters; the model works on the pieces between
    slashes, which is what the character loop of [normalizeString] computes:
    empty pieces and ["."] are dropped, [".."] removes the piece before it
    (and is kept only where [allowAboveRoot] lets a relative path climb). *)

Module NodePath.
Import JsString.

Definition sep : string := "/".

Definition isAbsolute (p : string) : bool :=
  match p with String c _ => Ascii.eqb c slash | EmptyString => false end.

(** A piece that [normalizeString] keeps as it is. *)
Definition regular (piece : string) : bool :=
  negb (piece =? EmptyString) && negb (piece =? ".") && negb (piece =? "..")
  && negb (has_slash piece).

(** One piece against the stack of pieces kept so far (top first). *)
Definition normalize_piece (allowAboveRoot : bool)
    (kept : list string) (piece : string) : list string :=
  if (piece =? "") || (piece =? ".") then kept
  else if piece =? ".." then
    match kept with
    | top :: below =>
        if top =? ".." then (if allowAboveRoot then ".." :: kept else kept)
        else below
    | [] => if allowAboveRoot then [".."] else []
    end
  else piece :: kept.

Definition normalize_pieces (allowAboveRoot : bool)
    (kept pieces : list string) : list string :=
  fold_left (normalize_piece allowAboveRoot) pieces kept.

Definition normalizeString (p : string) (allowAboveRoot : bool) : string :=
  join (rev (normalize_pieces allowAboveRoot [] (split p))).

(** The loop of [path.resolve], from the last argument to the first:
    arguments are prepended, each followed by a slash, until one is
    absolute; empty arguments are skipped. *)
Fixpoint resolve_args (args : list string) : string * bool :=
  match args with
  | [] => (EmptyString, false)
  | a :: later =>
      let '(acc, absolute) := resolve_args later in
      if absolute then (acc, true)
      else match a with
           | EmptyString => (acc, false)
           | _ => (a ++ String slash acc, isAbsolute a)
           end
  end.

(** [path.resolve(...args)]; [cwd] is [process.cwd()], consulted when no
    argument is absolute. *)
Definition resolve (cwd : string) (args : list string) : string :=
  let '(joined, absolute) := resolve_args (cwd :: args) in
  let normal := normalizeString joined (negb absolute) in
  if absolute then String slash normal
  else match normal with EmptyString => "." | _ => normal end.

(** The pieces of the path [path.resolve] returns when it is absolute. *)
Definition resolved_pieces (cwd : string) (args : list string) : list string :=
  rev (normalize_pieces false [] (split (fst (resolve_args (cwd :: args))))).

Definition endsWithSlash (p : string) : bool :=
  match rev (split p) with
  | last :: _ :: _ => last =? ""
  | _ => false
  end.

(** [path.normalize(p)]. *)
Definition normalize (p : string) : string :=
  match p with
  | EmptyString => "."
  | _ =>
      let absolute := isAbsolute p in
      let trailing := endsWithSlash p in
      let normal := normalizeString p (negb absolute) in
      match normal with
      | EmptyString =>
          if absolute then "/" else if trailing then "./" else "."
      | _ =>
          let normal' := if trailing then normal ++ "/" else normal in
          if absolute then String slash normal' else normal'
      end
  end.

(** [path.join(...args)]. *)
Definition path_join (args : list string) : string :=
  match filter (fun a => negb (a =? "")) args with
  | [] => "."
  | present => normalize (join present)
  end.

(** [path.basename(p)]: the last non-empty piece, trailing slashes
    ignored. *)
Definition basename (p : string) : string :=
  match filter (fun piece => negb (piece =? "")) (rev (split p)) with
  | last :: _ => last
  | [] => EmptyString
  end.

(** Drop the pieces two resolved paths share. *)
Fixpoint drop_common (from to : list string) : list string * list string :=
  match from, to with
  | f :: from', t :: to' =>
      if f =? t then drop_common from' to' else (from, to)
  | _, _ => (from, to)
  end.

Definition pieces_of_resolved (p : string) : list string :=
  filter (fun piece => negb (piece =? "")) (split p).

(** [path.relative(from, to)]: one [".."] for each piece left of [from],
    then what is left of [to]. *)
Definition relative (cwd from to : string) : string :=
  if from =? to then EmptyString
  else
    let from' := resolve cwd [from] in
    let to' := resolve cwd [to] in
    if from' =? to' then EmptyString
    else
      let '(up, down) :=
        drop_common (pieces_of_resolved from') (pieces_of_resolved to') in
      join (map (fun _ => "..") up ++ down).

End NodePath.

(** ** Completions: a returned value or a thrown exception *)

Inductive exn : Type :=
| Error (message : string)     (* [new Error(message)] thrown by the source *)
| SyntaxError                  (* [JSON.parse] on malformed text *)
| TypeError                    (* a property read on [null] *)
| LibraryError.                (* raised inside [ws] or [node-pty] *)

Inductive completion (A : Type) : Type :=
| Normal (a : A)
| Throw (e : exn).
Arguments Normal {A} a.
Arguments Throw {A} e.

(** ** The path sandbox *)

Section Sandbox.

(** [process.cwd()] and the constant [WORKSPACE_ROOT]. *)
Variable cwd : string.
Variable WORKSPACE_ROOT : string.

Definition outside_workspace : exn :=
  Error "Path outside workspace root is not allowed".
Definition outside_project : exn := Error "Invalid path (outside project)".
Definition project_required : exn := Error "project name required".

(** [path.resolve(WORKSPACE_ROOT)], the containment root of [resolveSafe]. *)
Definition workspace_root : string := NodePath.resolve cwd [WORKSPACE_ROOT].

(** [p] is [root] itself or has [root + path.sep] as a literal prefix. *)
Definition contained (root p : string) : bool :=
  (p =? root) || JsString.startsWith p (root ++ NodePath.sep).

(** [p] is strictly inside [root]. *)
Definition strictly_inside (root p : string) : bool :=
  JsString.startsWith p (root ++ NodePath.sep).

(** [p] is an absolute path in normal form: [path.resolve(p) === p]. *)
Definition canonical (p : string) : Prop := NodePath.resolve cwd [p] = p.

(** [resolveSafe(rel = '.')], part_000 lines 32-43. *)
Definition resolveSafe (rel : string) : completion string :=
  let sanitizedRel :=
    JsString.strip_leading_slashes (JsString.or_default rel ".") in
  let resolved := NodePath.resolve cwd [WORKSPACE_ROOT; sanitizedRel] in
  let rootNormalized := NodePath.resolve cwd [WORKSPACE_ROOT] ++ NodePath.sep in
  let resolvedNormalized := resolved ++ "" in
  if negb (JsString.startsWith resolvedNormalized rootNormalized)
     && negb (resolved =? NodePath.resolve cwd [WORKSPACE_ROOT])
  then Throw outside_workspace
  else Normal resolved.

(** [toRel(absPath)], part_000 lines 46-49; [replaceAll(path.sep, '/')]
    replaces a slash by a slash. *)
Definition toRel (absPath : string) : string :=
  let rel := NodePath.relative cwd WORKSPACE_ROOT absPath in
  match rel with EmptyString => "." | _ => rel end.

(** [resolveWorkspacePath(project, rel = '.')], part_000 lines 266-277;
    the result is the pair [(projectRoot, resolved)]. *)
Definition resolveWorkspacePath (project rel : string)
    : completion (string * string) :=
  match project with
  | EmptyString => Throw project_required
  | _ =>
      let sanitizedProject := NodePath.basename project in
      let projectRoot := NodePath.resolve cwd [WORKSPACE_ROOT; sanitizedProject] in
      let resolved := NodePath.resolve cwd [projectRoot; JsString.or_default rel "."] in
      if negb (JsString.startsWith resolved projectRoot)
      then Throw outside_project
      else Normal (projectRoot, resolved)
  end.

End Sandbox.

(** ** JavaScript values, as [JSON.parse] and property reads yield them *)

#[warnings="-register-all"]
Inductive value : Type :=
| VUndefined
| VNull
| VBool (b : bool)
| VNum (x : float)
| VStr (s : string)
| VArr (items : list value)
| VObj (fields : list (string * value)).

Module Js.

(** [ToBoolean]: [undefined], [null], [false], [0], [-0], [NaN] and the
    empty string are falsy. *)
Definition truthy (v : value) : bool :=
  match v with
  | VUndefined | VNull => false
  | VBool b => b
  | VNum x => negb (PrimFloat.eqb x 0%float) && PrimFloat.eqb x x
  | VStr s => negb (s =? "")
  | VArr _ | VObj _ => true
  end.

(** [a || b]. *)
Definition or (a b : value) : value := if truthy a then a else b.

(** An own property of a parsed object; of duplicate keys the last one
    stays, as in [JSON.parse]. *)
Fixpoint own_property (key : string) (fields : list (string * value))
    : option value :=
  match fields with
  | [] => None
  | (k, v) :: later =>
      match own_property key later with
      | Some found => Some found
      | None => if k =? key then Some v else None
      end
  end.

(** [v.key] for the keys the source reads ([type], [cols], [rows]), which
    no built-in prototype defines: a [TypeError] on [null] and
    [undefined], the own property of an object, [undefined] elsewhere. *)
Definition get (v : value) (key : string) : completion value :=
  match v with
  | VUndefined | VNull => Throw TypeError
  | VObj fields =>
      match own_property key fields with
      | Some found => Normal found
      | None => Normal VUndefined
      end
  | _ => Normal VUndefined
  end.

(** [v === 'text']. *)
Definition is_string (v : value) (text : string) : bool :=
  match v with VStr s => s =? text | _ => false end.

End Js.

(** ** The connection and the shell process *)

Inductive readyState : Type := OPEN | CLOSING | CLOSED.

(** The options of one [pty.spawn] call. *)
Record spawn_options : Type := mkSpawn {
  spawn_shell : string;
  spawn_cols : value;
  spawn_rows : value;
  spawn_cwd : string
}.

(** One connection with what the handlers did to it and to its shell. *)
Record world : Type := mkWorld {
  ws_state : readyState;            (* [ws.readyState] *)
  ws_sent : list string;            (* frames sent on the open connection *)
  pty_spawned : list spawn_options; (* [pty.spawn] calls that returned *)
  pty_size : option (value * value);(* columns and rows of the terminal *)
  pty_written : list string;        (* [ptyProcess.write] calls *)
  pty_kills : nat;                  (* [ptyProcess.kill] calls *)
  pty_exited : bool;                (* the shell ended on its own *)
  listens_data : bool;              (* [ptyProcess.onData] registered *)
  listens_message : bool;           (* [ws.on('message')] registered *)
  listens_close : bool              (* [ws.on('close')] registered *)
}.

(** A connection as the server hands it to the ['connection'] listener. *)
Definition fresh : world :=
  mkWorld OPEN [] [] None [] 0 false false false false.

(** What [ws] and [node-pty] may do that the source cannot see: whether a
    call raises. *)
Record library : Type := mkLibrary {
  send_unopened_throws : bool;            (* [ws.send] when not [OPEN] *)
  spawn_throws : bool;                    (* [pty.spawn] *)
  resize_throws : value -> value -> bool; (* [ptyProcess.resize] *)
  kill_throws : bool                      (* [ptyProcess.kill] *)
}.

(** State and exceptions. *)
Definition M (A : Type) : Type := world -> completion A * world.

Definition ret {A} (a : A) : M A := fun w => (Normal a, w).
Definition throw {A} (e : exn) : M A := fun w => (Throw e, w).
Definition bind {A B} (m : M A) (k : A -> M B) : M B :=
  fun w => match m w with
           | (Normal a, w') => k a w'
           | (Throw e, w') => (Throw e, w')
           end.
Definition lift {A} (c : completion A) : M A := fun w => (c, w).

(** [try { body } catch { handler }]. *)
Definition try_catch {A} (body : M A) (handler : exn -> M A) : M A :=
  fun w => match body w with
           | (Normal a, w') => (Normal a, w')
           | (Throw e, w') => handler e w'
           end.

Notation "x <- m ;; k" := (bind m (fun x => k))
  (at level 61, m at next level, right associativity).
Notation "m ;; k" := (bind m (fun _ => k))
  (at level 61, right associativity).

(** ** What the calls do to the world *)

Definition with_state (w : world) (st : readyState) : world :=
  mkWorld st (ws_sent w) (pty_spawned w) (pty_size w)
    (pty_written w) (pty_kills w) (pty_exited w)
    (listens_data w) (listens_message w) (listens_close w).

Definition with_sent (w : world) (data : string) : world :=
  mkWorld (ws_state w) (ws_sent w ++ [data]) (pty_spawned w) (pty_size w)
    (pty_written w) (pty_kills w) (pty_exited w)
    (listens_data w) (listens_message w) (listens_close w).

Definition with_spawned (w : world) (opts : spawn_options) : world :=
  mkWorld (ws_state w) (ws_sent w) (pty_spawned w ++ [opts])
    (Some (spawn_cols opts, spawn_rows opts))
    (pty_written w) (pty_kills w) (pty_exited w)
    (listens_data w) (listens_message w) (listens_close w).

Definition with_size (w : world) (cols rows : value) : world :=
  mkWorld (ws_state w) (ws_sent w) (pty_spawned w) (Some (cols, rows))
    (pty_written w) (pty_kills w) (pty_exited w)
    (listens_data w) (listens_message w) (listens_close w).

Definition with_written (w : world) (data : string) : world :=
  mkWorld (ws_state w) (ws_sent w) (pty_spawned w) (pty_size w)
    (pty_written w ++ [data]) (pty_kills w) (pty_exited w)
    (listens_data w) (listens_message w) (listens_close w).

Definition with_kill (w : world) : world :=
  mkWorld (ws_state w) (ws_sent w) (pty_spawned w) (pty_size w)
    (pty_written w) (S (pty_kills w)) (pty_exited w)
    (listens_data w) (listens_message w) (listens_close w).

Definition with_exited (w : world) : world :=
  mkWorld (ws_state w) (ws_sent w) (pty_spawned w) (pty_size w)
    (pty_written w) (pty_kills w) true
    (listens_data w) (listens_message w) (listens_close w).

Definition with_listeners (w : world) (data message close : bool) : world :=
  mkWorld (ws_state w) (ws_sent w) (pty_spawned w) (pty_size w)
    (pty_written w) (pty_kills w) (pty_exited w) data message close.

Section Calls.

Variable lib : library.

(** [ws.send(data)]: a frame on an open connection; on any other the data
    goes nowhere, and the library may raise. *)
Definition ws_send (data : string) : M unit := fun w =>
  match ws_state w with
  | OPEN => (Normal tt, with_sent w data)
  | _ => if send_unopened_throws lib then (Throw LibraryError, w)
         else (Normal tt, w)
  end.

(** [ws.close()]: starts the closing handshake. *)
Definition ws_close : M unit := fun w =>
  (Normal tt, with_state w (match ws_state w with OPEN => CLOSING | st => st end)).

(** [pty.spawn(shell, [], options)]. *)
Definition pty_spawn (opts : spawn_options) : M unit := fun w =>
  if spawn_throws lib then (Throw LibraryError, w)
  else (Normal tt, with_spawned w opts).

(** [ptyProcess.write(data)]. *)
Definition pty_write (data : string) : M unit := fun w =>
  (Normal tt, with_written w data).

(** [ptyProcess.resize(cols, rows)]. *)
Definition pty_resize (cols rows : value) : M unit := fun w =>
  if resize_throws lib cols rows then (Throw LibraryError, w)
  else (Normal tt, with_size w cols rows).

(** [ptyProcess.kill()]: the call is counted, whether it raises or not. *)
Definition pty_kill : M unit := fun w =>
  if kill_throws lib then (Throw LibraryError, with_kill w)
  else (Normal tt, with_kill w).

(** [ptyProcess.onData(f)], [ws.on('message', f)], [ws.on('close', f)]. *)
Definition pty_onData : M unit := fun w =>
  (Normal tt, with_listeners w true (listens_message w) (listens_close w)).
Definition ws_on_message : M unit := fun w =>
  (Normal tt, with_listeners w (listens_data w) true (listens_close w)).
Definition ws_on_close : M unit := fun w =>
  (Normal tt, with_listeners w (listens_data w) (listens_message w) true).

End Calls.

(** ** The terminal endpoint *)

(** The three revisions of the server. *)
Inductive revision : Type :=
| FirstRevision       (* src/server.js *)
| SingleWorkspace     (* src/unnamed/part_000, lines 1-237 *)
| ProjectScoped.      (* src/unnamed/part_000, lines 238-521 *)

(** The query of the upgrade request: [searchParams.get] gives [null]
    ([None]) for a parameter that is not there. *)
Record request : Type := mkRequest {
  query_project : option string;
  query_path : option string
}.

(** [searchParams.get(name) || fallback]. *)
Definition param_or (p : option string) (fallback : string) : string :=
  match p with
  | Some s => JsString.or_default s fallback
  | None => fallback
  end.

(** What reaches a connection and its shell from outside.  An inbound
    message is a text frame, and [msg] is its [msg.toString()]. *)
Inductive event : Type :=
| Connection (req : request)   (* the server's ['connection'] *)
| ShellOutput (chunk : string) (* the shell wrote [chunk] *)
| Inbound (msg : string)       (* the connection's ['message'] *)
| ConnectionClosed             (* the connection's ['close'] *)
| ShellExit.                   (* the shell process ended *)

Section Terminal.

Variable cwd : string.
Variable WORKSPACE_ROOT : string.
(** [fs.existsSync]. *)
Variable existsSync : string -> bool.
(** [JSON.parse]; [None] stands for its [SyntaxError]. *)
Variable JSON_parse : string -> option value.
Variable lib : library.
(** [os.platform()] and [process.env.SHELL] (empty when unset). *)
Variable platform : string.
Variable SHELL : string.

Definition parse (text : string) : completion value :=
  match JSON_parse text with
  | Some v => Normal v
  | None => Throw SyntaxError
  end.

Definition shell : string :=
  if platform =? "win32" then "powershell.exe"
  else JsString.or_default SHELL "bash".

Definition spawn_shell_in (dir : string) : M unit :=
  pty_spawn lib (mkSpawn shell (VNum 80) (VNum 24) dir).

Definition project_not_found (project : string) : string :=
  "Project '" ++ project ++ "' not found.".
Definition path_not_found (relPath : string) : string :=
  "Path '" ++ relPath ++ "' not found.".

(** [ptyProcess.onData(...)], [ws.on('message', ...)], [ws.on('close', ...)]
    in the order of the source. *)
Definition listen : M unit :=
  pty_onData ;; ws_on_message ;; ws_on_close.

(** src/server.js lines 27-72 and part_000 lines 475-521: the project is
    reduced to its base name and joined to the root. *)
Definition on_connection_project (req : request) : M unit :=
  let project := param_or (query_project req) "default" in
  let resolved :=
    NodePath.path_join [WORKSPACE_ROOT; NodePath.basename project] in
  if negb (existsSync resolved) then
    ws_send lib (project_not_found project) ;; ws_close
  else
    spawn_shell_in resolved ;; listen.

(** part_000 lines 189-237: the path goes through [resolveSafe], and the
    whole listener is guarded. *)
Definition on_connection_workspace (req : request) : M unit :=
  try_catch
    (let relPath := param_or (query_path req) "." in
     projectDir <- lift (resolveSafe cwd WORKSPACE_ROOT relPath) ;;
     if negb (existsSync projectDir) then
       ws_send lib (path_not_found relPath) ;; ws_close
     else
       spawn_shell_in projectDir ;; listen)
    (fun _ =>
       try_catch (ws_send lib "Server error" ;; ws_close) (fun _ => ret tt)).

Definition on_connection (rev : revision) (req : request) : M unit :=
  match rev with
  | SingleWorkspace => on_connection_workspace req
  | FirstRevision | ProjectScoped => on_connection_project req
  end.

(** [ptyProcess.onData]: src/server.js line 53 sends unguarded, part_000
    lines 213-215 and 499-501 inside [try]. *)
Definition on_data (rev : revision) (data : string) : M unit :=
  match rev with
  | FirstRevision => ws_send lib data
  | SingleWorkspace | ProjectScoped =>
      try_catch (ws_send lib data) (fun _ => ret tt)
  end.

(** src/server.js lines 56-65: the write is the [catch] branch. *)
Definition on_message_first (msg : string) : M unit :=
  try_catch
    (data <- lift (parse msg) ;;
     type <- lift (Js.get data "type") ;;
     if Js.is_string type "resize" then
       cols <- lift (Js.get data "cols") ;;
       rows <- lift (Js.get data "rows") ;;
       pty_resize lib cols rows
     else ret tt)
    (fun _ => pty_write msg).

(** part_000 lines 217-227 and 503-515: the [try] block says whether the
    listener returned inside it; if not, the write follows. *)
Definition on_message_later (msg : string) : M unit :=
  returned <-
    try_catch
      (parsed <- lift (parse msg) ;;
       if Js.truthy parsed then
         type <- lift (Js.get parsed "type") ;;
         if Js.is_string type "resize" then
           cols <- lift (Js.get parsed "cols") ;;
           rows <- lift (Js.get parsed "rows") ;;
           pty_resize lib (Js.or cols (VNum 80)) (Js.or rows (VNum 24)) ;;
           ret true
         else ret false
       else ret false)
      (fun _ => ret false) ;;
  if returned : bool then ret tt else pty_write msg.

Definition on_message (rev : revision) (msg : string) : M unit :=
  match rev with
  | FirstRevision => on_message_first msg
  | SingleWorkspace | ProjectScoped => on_message_later msg
  end.

(** [ws.on('close')]: src/server.js lines 68-71 kill unguarded, part_000
    lines 229-232 and 517-520 inside [try]. *)
Definition on_close (rev : revision) : M unit :=
  match rev with
  | FirstRevision => pty_kill lib
  | SingleWorkspace | ProjectScoped =>
      try_catch (pty_kill lib) (fun _ => ret tt)
  end.

(** The library marks the connection closed before it emits ['close'],
    and emits it once. *)
Definition mark_closed (w : world) : world := with_state w CLOSED.

(** The shell ended: recorded, and nothing else. *)
Definition mark_exited (w : world) : world := with_exited w.

(** One event; a listener runs only if the source registered it.  No
    revision registers a listener for the exit of the shell. *)
Definition step (rev : revision) (ev : event) : M unit := fun w =>
  match ev with
  | Connection req => on_connection rev req w
  | ShellOutput chunk =>
      if listens_data w then on_data rev chunk w else (Normal tt, w)
  | Inbound msg =>
      if listens_message w then on_message rev msg w else (Normal tt, w)
  | ConnectionClosed =>
      match ws_state w with
      | CLOSED => (Normal tt, w)
      | _ =>
          if listens_close w then on_close rev (mark_closed w)
          else (Normal tt, mark_closed w)
      end
  | ShellExit => (Normal tt, mark_exited w)
  end.

(** A run of events; an exception that leaves a listener ends it. *)
Fixpoint run (rev : revision) (evs : list event) : M unit :=
  match evs with
  | [] => ret tt
  | ev :: later => step rev ev ;; run rev later
  end.

(** A connection that was turned away with one frame, and a session
    opened in [dir]. *)
Definition refused (frame : string) : world :=
  mkWorld CLOSING [frame] [] None [] 0 false false false false.

Definition opened (dir : string) : world :=
  mkWorld OPEN [] [mkSpawn shell (VNum 80) (VNum 24) dir]
    (Some (VNum 80, VNum 24)) [] 0 false true true true.

(** The directory the listener looks for on disk. *)
Definition requested_dir (rev : revision) (req : request) : completion string :=
  match rev with
  | SingleWorkspace =>
      resolveSafe cwd WORKSPACE_ROOT (param_or (query_path req) ".")
  | FirstRevision | ProjectScoped =>
      Normal (NodePath.path_join
                [WORKSPACE_ROOT;
                 NodePath.basename (param_or (query_project req) "default")])
  end.

(** The frame sent when that directory is not there. *)
Definition diagnostic (rev : revision) (req : request) : string :=
  match rev with
  | SingleWorkspace => path_not_found (param_or (query_path req) ".")
  | FirstRevision | ProjectScoped =>
      project_not_found (param_or (query_project req) "default")
  end.

(** A resize control message: text that parses as an object whose [type]
    is ['resize']; the result is what its [cols] and [rows] read as. *)
Definition resize_request (msg : string) : option (value * value) :=
  match JSON_parse msg with
  | Some (VObj fields) =>
      match Js.own_property "type" fields with
      | Some (VStr type) =>
          if type =? "resize" then
            Some (match Js.own_property "cols" fields with
                  | Some c => c | None => VUndefined end,
                  match Js.own_property "rows" fields with
                  | Some r => r | None => VUndefined end)
          else None
      | _ => None
      end
  | _ => None
  end.

End Terminal.

(** Events that reach a session after it was opened and before the
    connection closes. *)
Definition during_session (ev : event) : bool :=
  match ev with
  | ShellOutput _ | Inbound _ | ShellExit => true
  | Connection _ | ConnectionClosed => false
  end.

Definition is_connection (ev : event) : bool :=
  match ev with Connection _ => true | _ => false end.

(** The revisions that wrap [ws.send] and [ptyProcess.kill] in [try]. *)
Definition guarded (rev : revision) : bool :=
  match rev with FirstRevision => false | _ => true end.

Definition is_open (w : world) : bool :=
  match ws_state w with OPEN => true | _ => false end.

Definition is_closed (w : world) : bool :=
  match ws_state w with CLOSED => true | _ => false end.

(** The resize request an event carries, if it is one. *)
Definition resize_of (JSON_parse : string -> option value) (ev : event)
    : option (value * value) :=
  match ev with
  | Inbound msg => resize_request JSON_parse msg
  | _ => None
  end.

(** [w'] is the session [w] with the same connection state, the same
    listeners, the same shell and as many kills. *)
Definition same_session (w w' : world) : Prop :=
  ws_state w' = ws_state w /\ pty_kills w' = pty_kills w
  /\ pty_spawned w' = pty_spawned w
  /\ listens_data w' = listens_data w
  /\ listens_message w' = listens_message w
  /\ listens_close w' = listens_close w.

(** No listener is registered on the connection or its shell. *)
Definition no_listeners (w : world) : bool :=
  negb (listens_data w || listens_message w || listens_close w).

(** The shell of a connection: spawned at most once, and killed once
    exactly when a close listener is there and the connection closed. *)
Definition accounted (w : world) : Prop :=
  Nat.leb (List.length (pty_spawned w)) 1 = true
  /\ pty_kills w
     = if listens_close w && is_closed w then 1 else 0.

(** The event is no resize request. *)
Definition plain (JSON_parse : string -> option value) (ev : event) : bool :=
  match resize_of JSON_parse ev with None => true | Some _ => false end.

(** The chunks the shell wrote and the messages that came in, in the order
    of the events. *)
Definition outputs (evs : list event) : list string :=
  flat_map (fun ev => match ev with ShellOutput chunk => [chunk] | _ => [] end)
    evs.

Definition inputs (evs : list event) : list string :=
  flat_map (fun ev => match ev with Inbound msg => [msg] | _ => [] end) evs.

(** ** The server and its connections

    [new WebSocketServer({ server, path: '/term' })] (src/server.js line
    24, part_000 lines 187 and 473) is called without [clientTracking], so
    the server keeps the set [wss.clients] of its connections: a connection
    is added before ['connection'] is emitted for it, and deleted when its
    ['close'] is emitted, by a listener the server registered before any
    listener of the source.  That set is the only table of sessions there
    is; no revision keeps one of its own.  Each connection has its own
    closure, hence its own shell and listeners. *)
Record server : Type := mkServer {
  clients : list nat;          (* [wss.clients], by connection identity *)
  connection : nat -> world    (* each connection, with its shell *)
}.

(** The server before any connection. *)
Definition listening : server := mkServer [] (fun _ => fresh).


(** [clients.delete] and [clients.add]. *)
Definition delete_client (id : nat) (ids : list nat) : list nat :=
  filter (fun other => negb (Nat.eqb other id)) ids.

Definition add_client (id : nat) (ids : list nat) : list nat :=
  id :: delete_client id ids.

Definition with_connection (s : server) (ids : list nat) (id : nat) (w : world)
    : server :=
  mkServer ids (fun other => if Nat.eqb other id then w else connection s other).

Section Server.

Variable cwd : string.
Variable WORKSPACE_ROOT : string.
Variable existsSync : string -> bool.
Variable JSON_parse : string -> option value.
Variable lib : library.
Variable platform : string.
Variable SHELL : string.

(** One event on the connection [id].  A new connection starts from
    [fresh]; the set of clients changes when a connection arrives and when
    one closes, whatever the listeners of the source do then. *)
Definition serve (rev : revision) (id : nat) (ev : event) (s : server)
    : completion unit * server :=
  let before := match ev with Connection _ => fresh | _ => connection s id end in
  let ids := match ev with
             | Connection _ => add_client id (clients s)
             | ConnectionClosed => delete_client id (clients s)
             | _ => clients s
             end in
  let (outcome, after) :=
    step cwd WORKSPACE_ROOT existsSync JSON_parse lib platform SHELL rev ev
      before in
  (outcome, with_connection s ids id after).

(** Events on any connections, one after the other; an exception that
    leaves a listener ends the run. *)
Fixpoint serve_all (rev : revision) (evs : list (nat * event)) (s : server)
    : completion unit * server :=
  match evs with
  | [] => (Normal tt, s)
  | (id, ev) :: later =>
      match serve rev id ev s with
      | (Normal _, s') => serve_all rev later s'
      | (Throw e, s') => (Throw e, s')
      end
  end.

End Server.


(** ** The file APIs

    The handlers of [/api/files], [/api/file], [/api/mkdir], [/api/delete]
    and [/api/root].  What [fs] answers is a parameter; the calls a handler
    makes are kept in the order it makes them. *)

Module NodeDirname.
Import JsString NodePath.

(** The pieces of a path without the empty pieces that trailing slashes
    leave at its end. *)
Fixpoint drop_trailing_empty (pieces : list string) : list string :=
  match pieces with
  | [] => []
  | piece :: later =>
      match drop_trailing_empty later with
      | [] => if piece =? "" then [] else [piece]
      | kept => piece :: kept
      end
  end.

(** [path.dirname(p)], POSIX flavour, on pieces: trailing slashes and the
    last piece are dropped and the text before them is kept as it is; a
    path with nothing before its last piece gives ["/"] or ["."], and
    ["//"] stays when exactly that is left. *)
Definition dirname (p : string) : string :=
  match p with
  | EmptyString => "."
  | _ =>
      match removelast (drop_trailing_empty (split p)) with
      | [] => if isAbsolute p then "/" else "."
      | [only] => if only =? "" then "/" else only
      | [first; second] =>
          if (first =? "") && (second =? "") then "//"
          else join [first; second]
      | before => join before
      end
  end.

End NodeDirname.

(** A call into [fs] or [fs/promises]. *)
Inductive fs_call : Type :=
| fs_existsSync (p : string)
| fs_readdir (p : string)
| fs_readFile (p : string)
| fs_mkdir (p : string)                (* [{ recursive: true }] *)
| fs_writeFile (p : string) (content : string)
| fs_lstat (p : string)
| fs_rm (p : string)                   (* [{ recursive: true, force: true }] *)
| fs_unlink (p : string).

(** The path a call is given. *)
Definition fs_path (call : fs_call) : string :=
  match call with
  | fs_existsSync p | fs_readdir p | fs_readFile p | fs_mkdir p
  | fs_writeFile p _ | fs_lstat p | fs_rm p | fs_unlink p => p
  end.

(** What the file system answers: [inl message] is the rejection of the
    promise with an error of that message. *)
Record filesystem : Type := mkFilesystem {
  disk_exists : string -> bool;
  disk_readdir : string -> string + list (string * bool); (* name, isDirectory *)
  disk_readFile : string -> string + string;
  disk_mkdir : string -> string + unit;
  disk_writeFile : string -> string -> string + unit;
  disk_lstat : string -> string + bool;                   (* isDirectory *)
  disk_rm : string -> string + unit;
  disk_unlink : string -> string + unit
}.

(** What a handler sends: [res.status(n).json(body)]. *)
Record response : Type := mkResponse {
  status : nat;
  body : value
}.

(** Handlers: the calls made so far, and exceptions. *)
Definition IO (A : Type) : Type := list fs_call -> completion A * list fs_call.

Definition io_ret {A} (a : A) : IO A := fun calls => (Normal a, calls).
Definition io_bind {A B} (m : IO A) (k : A -> IO B) : IO B :=
  fun calls => match m calls with
               | (Normal a, calls') => k a calls'
               | (Throw e, calls') => (Throw e, calls')
               end.
Definition io_lift {A} (c : completion A) : IO A := fun calls => (c, calls).
Definition io_catch {A} (body : IO A) (handler : exn -> IO A) : IO A :=
  fun calls => match body calls with
               | (Normal a, calls') => (Normal a, calls')
               | (Throw e, calls') => handler e calls'
               end.

Notation "'let*' x := m 'in' k" := (io_bind m (fun x => k))
  (at level 61, x name, m at next level, right associativity).

(** One call: it is recorded, and answers as the file system says. *)
Definition io_call {A} (call : fs_call) (answer : string + A) : IO A :=
  fun calls =>
    (match answer with
     | inl message => Throw (Error message)
     | inr a => Normal a
     end, (calls ++ [call])%list).

(** [err.message]; the handlers only ever catch [Error]s. *)
Definition message_of (e : exn) : string :=
  match e with Error message => message | _ => EmptyString end.

(** [{ error: message }], [{ ok: true }] and the like. *)
Definition error_body (message : string) : value :=
  VObj [("error", VStr message)].

Definition dirent (item : string * bool) : value :=
  VObj [("name", VStr (fst item)); ("isDir", VBool (snd item))].

(** [optional || ''] and [!optional] for a field that is a string or
    absent. *)
Definition text_or_empty (t : option string) : string :=
  match t with Some s => s | None => EmptyString end.

Section FileApi.

Variable cwd : string.
Variable WORKSPACE_ROOT : string.
Variable disk : filesystem.

Definition existsSync_ (p : string) : IO bool :=
  io_call (fs_existsSync p) (inr (disk_exists disk p)).
Definition readdir_ (p : string) : IO (list (string * bool)) :=
  io_call (fs_readdir p) (disk_readdir disk p).
Definition readFile_ (p : string) : IO string :=
  io_call (fs_readFile p) (disk_readFile disk p).
Definition mkdir_ (p : string) : IO unit :=
  io_call (fs_mkdir p) (disk_mkdir disk p).
Definition writeFile_ (p content : string) : IO unit :=
  io_call (fs_writeFile p content) (disk_writeFile disk p content).
Definition lstat_ (p : string) : IO bool :=
  io_call (fs_lstat p) (disk_lstat disk p).
Definition rm_ (p : string) : IO unit := io_call (fs_rm p) (disk_rm disk p).
Definition unlink_ (p : string) : IO unit :=
  io_call (fs_unlink p) (disk_unlink disk p).

(** The [catch] of every handler: [res.status(400).json({ error:
    err.message })]. *)
Definition bad_request (e : exn) : IO response :=
  io_ret (mkResponse 400 (error_body (message_of e))).

(** *** The single-workspace revision, part_000 lines 54-133 *)

(** [GET /api/files?path=...], lines 54-67. *)
Definition get_files (path : option string) : IO response :=
  io_catch
    (let rel := param_or path "." in
     let* dir := io_lift (resolveSafe cwd WORKSPACE_ROOT rel) in
     let* there := existsSync_ dir in
     if negb there then
       io_ret (mkResponse 404 (error_body "Directory not found"))
     else
       let* items := readdir_ dir in
       io_ret (mkResponse 200
                 (VObj [("path", VStr (toRel cwd WORKSPACE_ROOT dir));
                        ("items", VArr (map dirent items))])))
    bad_request.

(** [GET /api/file?path=...], lines 70-82. *)
Definition get_file (path : option string) : IO response :=
  io_catch
    (let rel := text_or_empty path in
     match rel with
     | EmptyString => io_ret (mkResponse 400 (error_body "path required"))
     | _ =>
         let* filePath := io_lift (resolveSafe cwd WORKSPACE_ROOT rel) in
         let* there := existsSync_ filePath in
         if negb there then io_ret (mkResponse 404 (error_body "Not found"))
         else
           let* content := readFile_ filePath in
           io_ret (mkResponse 200
                     (VObj [("path", VStr (toRel cwd WORKSPACE_ROOT filePath));
                            ("content", VStr content)]))
     end)
    bad_request.

(** [POST /api/file { path, content }], lines 85-98. *)
Definition post_file (path content : option string) : IO response :=
  io_catch
    (let relPath := text_or_empty path in
     match relPath with
     | EmptyString => io_ret (mkResponse 400 (error_body "path required"))
     | _ =>
         let* abs := io_lift (resolveSafe cwd WORKSPACE_ROOT relPath) in
         let parent := NodeDirname.dirname abs in
         let* _ := mkdir_ parent in
         let* _ := writeFile_ abs (text_or_empty content) in
         io_ret (mkResponse 200
                   (VObj [("ok", VBool true);
                          ("path", VStr (toRel cwd WORKSPACE_ROOT abs))]))
     end)
    bad_request.

(** [POST /api/mkdir { path }], lines 101-112. *)
Definition post_mkdir (path : option string) : IO response :=
  io_catch
    (let relPath := text_or_empty path in
     match relPath with
     | EmptyString => io_ret (mkResponse 400 (error_body "path required"))
     | _ =>
         let* abs := io_lift (resolveSafe cwd WORKSPACE_ROOT relPath) in
         let* _ := mkdir_ abs in
         io_ret (mkResponse 200
                   (VObj [("ok", VBool true);
                          ("path", VStr (toRel cwd WORKSPACE_ROOT abs))]))
     end)
    bad_request.

(** [POST /api/delete { path }], lines 115-128. *)
Definition post_delete (path : option string) : IO response :=
  io_catch
    (let relPath := text_or_empty path in
     match relPath with
     | EmptyString => io_ret (mkResponse 400 (error_body "path required"))
     | _ =>
         let* abs := io_lift (resolveSafe cwd WORKSPACE_ROOT relPath) in
         let* isDirectory := lstat_ abs in
         let* _ := if isDirectory : bool then rm_ abs else unlink_ abs in
         io_ret (mkResponse 200 (VObj [("ok", VBool true)]))
     end)
    bad_request.

(** [GET /api/root], lines 131-133. *)
Definition get_root : IO response :=
  io_ret (mkResponse 200 (VObj [("root", VStr WORKSPACE_ROOT)])).

(** The requests of the single-workspace file API. *)
Inductive file_request : Type :=
| GetFiles (path : option string)
| GetFile (path : option string)
| PostFile (path content : option string)
| PostMkdir (path : option string)
| PostDelete (path : option string)
| GetRoot.

Definition handle (req : file_request) : IO response :=
  match req with
  | GetFiles path => get_files path
  | GetFile path => get_file path
  | PostFile path content => post_file path content
  | PostMkdir path => post_mkdir path
  | PostDelete path => post_delete path
  | GetRoot => get_root
  end.

(** The candidate a request hands to [resolveSafe], or none when the
    handler asks for no path or refuses first. *)
Definition candidate (req : file_request) : option string :=
  match req with
  | GetFiles path => Some (param_or path ".")
  | GetFile path | PostFile path _ | PostMkdir path | PostDelete path =>
      match text_or_empty path with
      | EmptyString => None
      | rel => Some rel
      end
  | GetRoot => None
  end.

(** The path a request is about: what [resolveSafe] makes of its
    candidate, the root as configured for [/api/root]; an exception when
    the path is required and missing, or thrown out by [resolveSafe]. *)
Definition target (req : file_request) : completion string :=
  match candidate req with
  | Some rel => resolveSafe cwd WORKSPACE_ROOT rel
  | None =>
      match req with
      | GetRoot => Normal WORKSPACE_ROOT
      | _ => Throw (Error "path required")
      end
  end.

End FileApi.

(** ** A reference reader for JSON text

    [JSON.parse] is a built-in; the listeners take it as a parameter.  For
    concrete messages this reader decodes the part of JSON the terminal
    client writes: [null], [true], [false], integers of at most fifteen
    digits, strings without escapes, arrays and objects, with white space
    between tokens.  Text outside that part is not meant to be read with
    it. *)

Module JsonText.

Definition code (c : ascii) : nat := nat_of_ascii c.

Definition is_space (c : ascii) : bool :=
  let n := code c in
  Nat.eqb n 32 || Nat.eqb n 9 || Nat.eqb n 10 || Nat.eqb n 13.

Fixpoint skip_space (s : string) : string :=
  match s with
  | String c rest => if is_space c then skip_space rest else s
  | EmptyString => EmptyString
  end.

Definition is_digit (c : ascii) : bool :=
  Nat.leb 48 (code c) && Nat.leb (code c) 57.

Definition digit_value (c : ascii) : float :=
  PrimFloat.of_uint63 (Uint63.of_Z (Z.of_nat (code c - 48))).

(** A run of digits, most significant first: its value, how many digits
    there were, and the text after it. *)
Fixpoint read_digits (s : string) (acc : float) (count : nat)
    : float * nat * string :=
  match s with
  | String c rest =>
      if is_digit c
      then read_digits rest (acc * 10 + digit_value c)%float (S count)
      else (acc, count, s)
  | EmptyString => (acc, count, s)
  end.

(** After a number no fraction or exponent may follow (not read here). *)
Definition number_ends (s : string) : bool :=
  match s with
  | String c _ =>
      negb (Nat.eqb (code c) 46 || Nat.eqb (code c) 101 || Nat.eqb (code c) 69 || is_digit c)
  | EmptyString => true
  end.

Definition read_number (s : string) : option (float * string) :=
  let '(negative, digits) :=
    match s with
    | String c rest => if Nat.eqb (code c) 45 then (true, rest) else (false, s)
    | EmptyString => (false, s)
    end in
  let leading_zero :=
    match digits with
    | String c (String d _) => Nat.eqb (code c) 48 && is_digit d
    | _ => false
    end in
  let '(x, count, rest) := read_digits digits 0%float 0 in
  if Nat.eqb count 0 || Nat.ltb 15 count || leading_zero || negb (number_ends rest)
  then None
  else Some (if negative then (- x)%float else x, rest).

(** The inside of a string up to its closing quote; escapes and control
    characters are not read. *)
Fixpoint read_string (s : string) : option (string * string) :=
  match s with
  | EmptyString => None
  | String c rest =>
      if Nat.eqb (code c) 34 then Some (EmptyString, rest)
      else if Nat.eqb (code c) 92 || Nat.ltb (code c) 32 then None
      else match read_string rest with
           | Some (body, rest') => Some (String c body, rest')
           | None => None
           end
  end.

Definition expect (word : string) (s : string) : option string :=
  if String.prefix word s
  then Some (substring (String.length word)
              (String.length s - String.length word) s)
  else None.

Fixpoint read_value (fuel : nat) (s : string) : option (value * string) :=
  match fuel with
  | O => None
  | S fuel' =>
      match skip_space s with
      | EmptyString => None
      | String c rest as s' =>
          if Nat.eqb (code c) 110 then
            option_map (fun r => (VNull, r)) (expect "null" s')
          else if Nat.eqb (code c) 116 then
            option_map (fun r => (VBool true, r)) (expect "true" s')
          else if Nat.eqb (code c) 102 then
            option_map (fun r => (VBool false, r)) (expect "false" s')
          else if Nat.eqb (code c) 34 then
            option_map (fun '(body, r) => (VStr body, r)) (read_string rest)
          else if Nat.eqb (code c) 91 then
            match skip_space rest with
            | String d rest' =>
                if Nat.eqb (code d) 93 then Some (VArr [], rest')
                else option_map (fun '(items, r) => (VArr items, r))
                       (read_items fuel' rest)
            | EmptyString => None
            end
          else if Nat.eqb (code c) 123 then
            match skip_space rest with
            | String d rest' =>
                if Nat.eqb (code d) 125 then Some (VObj [], rest')
                else option_map (fun '(fields, r) => (VObj fields, r))
                       (read_fields fuel' rest)
            | EmptyString => None
            end
          else
            option_map (fun '(x, r) => (VNum x, r)) (read_number s')
      end
  end

with read_items (fuel : nat) (s : string) : option (list value * string) :=
  match fuel with
  | O => None
  | S fuel' =>
      match read_value fuel' s with
      | Some (v, rest) =>
          match skip_space rest with
          | String c rest' =>
              if Nat.eqb (code c) 93 then Some ([v], rest')
              else if Nat.eqb (code c) 44 then
                option_map (fun '(items, r) => (v :: items, r))
                  (read_items fuel' rest')
              else None
          | EmptyString => None
          end
      | None => None
      end
  end

with read_fields (fuel : nat) (s : string)
    : option (list (string * value) * string) :=
  match fuel with
  | O => None
  | S fuel' =>
      match skip_space s with
      | String q after_quote =>
          if Nat.eqb (code q) 34 then
            match read_string after_quote with
            | Some (key, rest) =>
                match skip_space rest with
                | String colon rest' =>
                    if Nat.eqb (code colon) 58 then
                      match read_value fuel' rest' with
                      | Some (v, rest'') =>
                          match skip_space rest'' with
                          | String c rest3 =>
                              if Nat.eqb (code c) 125 then Some ([(key, v)], rest3)
                              else if Nat.eqb (code c) 44 then
                                option_map
                                  (fun '(fields, r) => ((key, v) :: fields, r))
                                  (read_fields fuel' rest3)
                              else None
                          | EmptyString => None
                          end
                      | None => None
                      end
                    else None
                | EmptyString => None
                end
            | None => None
            end
          else None
      | EmptyString => None
      end
  end.

(** The whole text is one value. *)
Definition JSON_parse (text : string) : option value :=
  match read_value (2 * String.length text + 2) text with
  | Some (v, rest) =>
      match skip_space rest with
      | EmptyString => Some v
      | _ => None
      end
  | None => None
  end.

End JsonText.


(** ** A concrete server, for the examples *)

Module Example.

Definition cwd : string := "/srv/app".
Definition WORKSPACE_ROOT : string := "/srv/app/workspaces".

(** On disk: the root and the project [demo]. *)
Definition existsSync (p : string) : bool :=
  (p =? "/srv/app/workspaces") || (p =? "/srv/app/workspaces/demo").

(** A library in which no call raises, one whose [ws.send] raises on a
    connection that is not open, and one whose [kill] raises. *)
Definition quiet : library := mkLibrary false false (fun _ _ => false) false.
Definition kill_raises : library :=
  mkLibrary false false (fun _ _ => false) true.

(** A library whose [resize] raises unless both arguments are positive
    finite numbers. *)
Definition positive (v : value) : bool :=
  match v with
  | VNum x => PrimFloat.ltb 0%float x && PrimFloat.ltb x infinity
  | _ => false
  end.
Definition strict : library :=
  mkLibrary false false (fun c r => negb (positive c && positive r)) false.

Definition step (lib : library) : revision -> event -> M unit :=
  step cwd WORKSPACE_ROOT existsSync JsonText.JSON_parse lib "linux" "/bin/sh".

Definition run (lib : library) : revision -> list event -> M unit :=
  run cwd WORKSPACE_ROOT existsSync JsonText.JSON_parse lib "linux" "/bin/sh".

(** The request [/term?project=demo&path=demo]: every revision finds its
    directory. *)
Definition demo : request := mkRequest (Some "demo") (Some "demo").

(** The session that request opens. *)
Definition session : world :=
  mkWorld OPEN [] [mkSpawn "/bin/sh" (VNum 80) (VNum 24) "/srv/app/workspaces/demo"]
    (Some (VNum 80, VNum 24)) [] 0 false true true true.


(** JSON text: a name or a string value in quotes. *)
Definition quoted (s : string) : string :=
  String (ascii_of_nat 34) (s ++ String (ascii_of_nat 34) EmptyString).

(** [{"type":"resize","cols":120,"rows":40}] *)
Definition resize_120_40 : string :=
  "{" ++ quoted "type" ++ ":" ++ quoted "resize" ++ ","
      ++ quoted "cols" ++ ":120," ++ quoted "rows" ++ ":40}".

(** [{"type":"resize","cols":"wide","rows":40}] *)
Definition resize_wide_40 : string :=
  "{" ++ quoted "type" ++ ":" ++ quoted "resize" ++ ","
      ++ quoted "cols" ++ ":" ++ quoted "wide" ++ "," ++ quoted "rows" ++ ":40}".

(** [{"type":"resize"}] *)
Definition resize_bare : string :=
  "{" ++ quoted "type" ++ ":" ++ quoted "resize" ++ "}".

End Example.

(** The server of the examples, and a server on which the connection 7 has
    the session of [Example.session] and another connection, 8, has one
    too. *)
Module ExampleServer.

Definition serve (lib : library)
    : revision -> nat -> event -> server -> completion unit * server :=
  serve Example.cwd Example.WORKSPACE_ROOT Example.existsSync
    JsonText.JSON_parse lib "linux" "/bin/sh".

Definition serve_all (lib : library)
    : revision -> list (nat * event) -> server -> completion unit * server :=
  serve_all Example.cwd Example.WORKSPACE_ROOT Example.existsSync
    JsonText.JSON_parse lib "linux" "/bin/sh".


End ExampleServer.

(** *** The project-scoped revision, part_000 lines 282-384 *)

Section ProjectFileApi.

Variable cwd : string.
Variable WORKSPACE_ROOT : string.
Variable disk : filesystem.

Definition project_and_path_required : response :=
  mkResponse 400 (error_body "project and path are required").

(** [if (!fs.existsSync(projectRoot)) await fsPromises.mkdir(projectRoot,
    { recursive: true })]. *)
Definition ensure_project_root (projectRoot : string) : IO unit :=
  let* there := existsSync_ disk projectRoot in
  if negb there then mkdir_ disk projectRoot else io_ret tt.

(** [GET /api/files?project=...&path=...], lines 282-303. *)
Definition get_files_project (project path : option string) : IO response :=
  io_catch
    (let rel := param_or path "." in
     match text_or_empty project with
     | EmptyString =>
         io_ret (mkResponse 400 (error_body "project is required"))
     | name =>
         let* roots :=
           io_lift (resolveWorkspacePath cwd WORKSPACE_ROOT name rel) in
         let dir := snd roots in
         let* there := existsSync_ disk dir in
         if negb there then
           io_ret (mkResponse 404
                     (VObj [("error", VStr "Directory not found");
                            ("path", VStr rel)]))
         else
           let* items := readdir_ disk dir in
           io_ret (mkResponse 200
                     (VObj [("path", VStr rel);
                            ("items", VArr (map dirent items))]))
     end)
    bad_request.

(** [GET /api/file?project=...&path=...], lines 306-322. *)
Definition get_file_project (project path : option string) : IO response :=
  io_catch
    (match text_or_empty project, text_or_empty path with
     | EmptyString, _ | _, EmptyString => io_ret project_and_path_required
     | name, rel =>
         let* roots :=
           io_lift (resolveWorkspacePath cwd WORKSPACE_ROOT name rel) in
         let filePath := snd roots in
         let* there := existsSync_ disk filePath in
         if negb there then io_ret (mkResponse 404 (error_body "Not found"))
         else
           let* content := readFile_ disk filePath in
           io_ret (mkResponse 200
                     (VObj [("path", VStr rel); ("content", VStr content)]))
     end)
    bad_request.

(** [POST /api/file { project, path, content }], lines 325-346. *)
Definition post_file_project (project path content : option string)
    : IO response :=
  io_catch
    (match text_or_empty project, text_or_empty path with
     | EmptyString, _ | _, EmptyString => io_ret project_and_path_required
     | name, relPath =>
         let* roots :=
           io_lift (resolveWorkspacePath cwd WORKSPACE_ROOT name relPath) in
         let projectRoot := fst roots in
         let filePath := snd roots in
         let* _ := ensure_project_root projectRoot in
         let parent := NodeDirname.dirname filePath in
         let* _ := mkdir_ disk parent in
         let* _ := writeFile_ disk filePath (text_or_empty content) in
         io_ret (mkResponse 200
                   (VObj [("ok", VBool true); ("path", VStr relPath)]))
     end)
    bad_request.

(** [POST /api/mkdir { project, path }], lines 349-365. *)
Definition post_mkdir_project (project path : option string) : IO response :=
  io_catch
    (match text_or_empty project, text_or_empty path with
     | EmptyString, _ | _, EmptyString => io_ret project_and_path_required
     | name, relPath =>
         let* roots :=
           io_lift (resolveWorkspacePath cwd WORKSPACE_ROOT name relPath) in
         let projectRoot := fst roots in
         let dirPath := snd roots in
         let* _ := ensure_project_root projectRoot in
         let* _ := mkdir_ disk dirPath in
         io_ret (mkResponse 200 (VObj [("ok", VBool true)]))
     end)
    bad_request.

(** [POST /api/delete { project, path }], lines 368-384. *)
Definition post_delete_project (project path : option string) : IO response :=
  io_catch
    (match text_or_empty project, text_or_empty path with
     | EmptyString, _ | _, EmptyString => io_ret project_and_path_required
     | name, relPath =>
         let* roots :=
           io_lift (resolveWorkspacePath cwd WORKSPACE_ROOT name relPath) in
         let target := snd roots in
         let* isDirectory := lstat_ disk target in
         let* _ := if isDirectory : bool then rm_ disk target
                   else unlink_ disk target in
         io_ret (mkResponse 200 (VObj [("ok", VBool true)]))
     end)
    bad_request.

(** The requests of the project-scoped file API: what to do, and the
    [project] and [path] that were sent. *)
Inductive project_action : Type :=
| ListDirectory
| ReadFile
| WriteFile (content : option string)
| MakeDirectory
| Delete.

Definition handle_project (action : project_action)
    (project path : option string) : IO response :=
  match action with
  | ListDirectory => get_files_project project path
  | ReadFile => get_file_project project path
  | WriteFile content => post_file_project project path content
  | MakeDirectory => post_mkdir_project project path
  | Delete => post_delete_project project path
  end.

(** What a request is about: the project root and the resolved path; an
    exception when something required is missing or the path is thrown out
    by [resolveWorkspacePath]. *)
Definition project_target (action : project_action)
    (project path : option string) : completion (string * string) :=
  match action with
  | ListDirectory =>
      match text_or_empty project with
      | EmptyString => Throw (Error "project is required")
      | name =>
          resolveWorkspacePath cwd WORKSPACE_ROOT name (param_or path ".")
      end
  | _ =>
      match text_or_empty project, text_or_empty path with
      | EmptyString, _ | _, EmptyString =>
          Throw (Error "project and path are required")
      | name, rel => resolveWorkspacePath cwd WORKSPACE_ROOT name rel
      end
  end.

End ProjectFileApi.

(** ** The Judge0 proxy: the address and the headers of its request

    Part_000 lines 152-155 and 417-431; both revisions build them alike. *)

Module Judge0.
Import JsString.



(** The environment; a variable that is not set is the empty string, which
    is as falsy as [undefined]. *)
Record config : Type := mkConfig {
  JUDGE0_KEY : string;
  JUDGE0_KEY_HEADER : string;
  JUDGE0_HOST_HEADER : string;
  JUDGE0_HOST_VALUE : string
}.

(** The own properties of the headers object that is handed to [fetch]. *)
Definition headers : Type := list (string * string).

(** The one name that an object literal inherits as an accessor. *)
Definition proto : string := "__proto__".

(** [headers[name] = value], the value a string: an existing property
    gets the new value and a new one is added, except under ['__proto__'],
    where the assignment runs the setter the object inherits, which
    ignores a string and creates no property. *)
Definition assign (name value : string) (h : headers) : headers :=
  if name =? proto then h
  else if existsb (fun entry => fst entry =? name) h
       then map (fun entry => if fst entry =? name then (name, value)
                              else entry) h
       else (h ++ [(name, value)])%list.

(** The own property of that name, if the object has one. *)
Fixpoint property (name : string) (h : headers) : option string :=
  match h with
  | [] => None
  | (key, value) :: later =>
      if key =? name then Some value else property name later
  end.

Definition key_header (env : config) : string :=
  or_default (JUDGE0_KEY_HEADER env) "X-Auth-Token".

Definition key_configured (env : config) : bool :=
  negb (JUDGE0_KEY env =? "").

Definition host_configured (env : config) : bool :=
  negb (JUDGE0_HOST_HEADER env =? "") && negb (JUDGE0_HOST_VALUE env =? "").

Definition request_headers (env : config) : headers :=
  let h := [("Content-Type", "application/json")] in
  let h := if key_configured env
           then assign (key_header env) (JUDGE0_KEY env) h else h in
  if host_configured env
  then assign (JUDGE0_HOST_HEADER env) (JUDGE0_HOST_VALUE env) h else h.

End Judge0.

(** ** A concrete disk, for the examples *)

Module ExampleFiles.

(** Under [/home/dev/WorkSpace]: the directory [src] with the file
    [main.js]. *)
Definition disk : filesystem :=
  mkFilesystem
    (fun p => (p =? "/home/dev/WorkSpace") || (p =? "/home/dev/WorkSpace/src")
              || (p =? "/home/dev/WorkSpace/src/main.js"))
    (fun p => if p =? "/home/dev/WorkSpace" then inr [("src", true)]
              else if p =? "/home/dev/WorkSpace/src" then inr [("main.js", false)]
              else inl "ENOTDIR: not a directory")
    (fun p => if p =? "/home/dev/WorkSpace/src/main.js" then inr "run()"
              else inl "EISDIR: illegal operation on a directory")
    (fun _ => inr tt)
    (fun _ _ => inr tt)
    (fun p => if (p =? "/home/dev/WorkSpace") || (p =? "/home/dev/WorkSpace/src")
              then inr true
              else if p =? "/home/dev/WorkSpace/src/main.js" then inr false
              else inl "ENOENT: no such file or directory")
    (fun _ => inr tt)
    (fun _ => inr tt).

Definition handle : file_request -> IO response :=
  handle "/srv/app" "/home/dev/WorkSpace" disk.

End ExampleFiles.

(** * Facts *)

(** ** Splitting and joining *)

Module JsStringFacts.
Import JsString.

Lemma append_nil_r (s : string) : s ++ EmptyString = s.
Proof. induction s as [|c s IH]; simpl; [reflexivity | now rewrite IH]. Qed.

Lemma append_assoc (a b c : string) : (a ++ b) ++ c = a ++ (b ++ c).
Proof. induction a as [|x a IH]; simpl; [reflexivity | now rewrite IH]. Qed.

Lemma split_not_nil (s : string) : split s <> [].
Proof.
  destruct s as [|c s]; simpl; [discriminate|].
  destruct (Ascii.eqb c slash); [discriminate|].
  destruct (split s); discriminate.
Qed.

(** A slash between two texts separates their pieces. *)
Lemma split_app_slash (a b : string) :
  split (a ++ String slash b) = (split a ++ split b)%list.
Proof.
  induction a as [|c a IH]; simpl.
  - reflexivity.
  - destruct (Ascii.eqb c slash).
    + now rewrite IH.
    + rewrite IH. pose proof (split_not_nil a) as Hne.
      destruct (split a); [contradiction | reflexivity].
Qed.

Lemma split_no_slash (s : string) : has_slash s = false -> split s = [s].
Proof.
  induction s as [|c s IH]; simpl; [reflexivity|].
  destruct (Ascii.eqb c slash); simpl; [discriminate|].
  intros H. now rewrite (IH H).
Qed.

Lemma split_pieces_no_slash (s : string) :
  Forall (fun piece => has_slash piece = false) (split s).
Proof.
  induction s as [|c s IH]; simpl.
  - constructor; [reflexivity | constructor].
  - destruct (Ascii.eqb c slash) eqn:E.
    + constructor; [reflexivity | assumption].
    + pose proof (split_not_nil s) as Hne.
      destruct (split s) as [|piece pieces]; [contradiction|].
      inversion IH; subst. constructor; [|assumption].
      simpl. now rewrite E.
Qed.

(** Joining slash-free pieces and splitting again gives the pieces back. *)
Lemma split_join (pieces : list string) :
  pieces <> [] ->
  Forall (fun piece => has_slash piece = false) pieces ->
  split (join pieces) = pieces.
Proof.
  induction pieces as [|p rest IH]; [congruence|].
  intros _ Hall. inversion Hall as [|? ? Hp Hrest]; subst.
  destruct rest as [|p' rest'].
  - simpl. now apply split_no_slash.
  - change (join (p :: p' :: rest')) with (p ++ String slash (join (p' :: rest'))).
    rewrite split_app_slash, (split_no_slash p Hp), IH; [reflexivity | discriminate | assumption].
Qed.

Lemma prefix_app (a t : string) : String.prefix a (a ++ t) = true.
Proof.
  induction a as [|c a IH]; simpl.
  - now destruct t.
  - destruct (ascii_dec c c); [assumption | congruence].
Qed.

Lemma prefix_inv (a b : string) :
  String.prefix a b = true -> exists t, b = a ++ t.
Proof.
  revert b. induction a as [|c a IH]; intros b H.
  - now exists b.
  - destruct b as [|d b]; simpl in H; [discriminate|].
    destruct (ascii_dec c d) as [->|]; [|discriminate].
    destruct (IH b H) as [t ->]. now exists t.
Qed.

Lemma prefix_longer (a t : string) :
  t <> EmptyString -> String.prefix (a ++ t) a = false.
Proof.
  intros Ht. induction a as [|c a IH]; simpl.
  - destruct t; [congruence | reflexivity].
  - destruct (ascii_dec c c); [assumption | reflexivity].
Qed.

Lemma strip_slashes (n : nat) (c : string) :
  strip_leading_slashes (slashes n ++ c) = strip_leading_slashes c.
Proof. induction n as [|n IH]; simpl; [reflexivity | assumption]. Qed.

Lemma strip_no_leading_slash (s : string) :
  NodePath.isAbsolute s = false -> strip_leading_slashes s = s.
Proof. destruct s as [|c s]; simpl; [reflexivity | now intros ->]. Qed.

End JsStringFacts.

(** ** Normal forms of paths *)

Module NodePathFacts.
Import JsString NodePath JsStringFacts.

Lemma regular_no_slash (pieces : list string) :
  Forall (fun piece => regular piece = true) pieces ->
  Forall (fun piece => has_slash piece = false) pieces.
Proof.
  apply Forall_impl. intros piece H. unfold regular in H.
  apply andb_prop in H as [_ H]. now destruct (has_slash piece).
Qed.

Lemma regular_not_empty (piece : string) :
  regular piece = true -> piece <> EmptyString.
Proof. intros H ->. discriminate. Qed.

Lemma normalize_piece_regular (above : bool) (kept : list string) (piece : string) :
  regular piece = true -> normalize_piece above kept piece = piece :: kept.
Proof.
  unfold regular, normalize_piece. intros H.
  repeat (apply andb_prop in H as [H ?]).
  destruct (piece =? EmptyString); [discriminate|].
  destruct (piece =? "."); [discriminate|].
  destruct (piece =? ".."); [discriminate | reflexivity].
Qed.

Lemma normalize_pieces_regular (above : bool) (pieces kept : list string) :
  Forall (fun piece => regular piece = true) pieces ->
  normalize_pieces above kept pieces = (rev pieces ++ kept)%list.
Proof.
  unfold normalize_pieces. revert kept.
  induction pieces as [|p rest IH]; intros kept Hall; [reflexivity|].
  inversion Hall; subst. simpl.
  rewrite normalize_piece_regular, IH by assumption.
  now rewrite <- app_assoc.
Qed.

Lemma normalize_pieces_app (above : bool) (kept xs ys : list string) :
  normalize_pieces above kept (xs ++ ys)
  = normalize_pieces above (normalize_pieces above kept xs) ys.
Proof. apply fold_left_app. Qed.

(** Below the root nothing but regular pieces is ever kept. *)
Lemma normalize_piece_keeps_regular (kept : list string) (piece : string) :
  has_slash piece = false ->
  Forall (fun p => regular p = true) kept ->
  Forall (fun p => regular p = true) (normalize_piece false kept piece).
Proof.
  intros Hs Hk. unfold normalize_piece.
  destruct (piece =? EmptyString) eqn:E1; [assumption|].
  destruct (piece =? ".") eqn:E2; [assumption|]. simpl.
  destruct (piece =? "..") eqn:E3.
  - destruct kept as [|top below]; [constructor|].
    destruct (top =? ".."); [assumption|]. now inversion Hk.
  - constructor; [|assumption].
    unfold regular. now rewrite E1, E2, E3, Hs.
Qed.

Lemma normalize_pieces_keep_regular (pieces kept : list string) :
  Forall (fun p => has_slash p = false) pieces ->
  Forall (fun p => regular p = true) kept ->
  Forall (fun p => regular p = true) (normalize_pieces false kept pieces).
Proof.
  unfold normalize_pieces. revert kept.
  induction pieces as [|p rest IH]; intros kept Hs Hk; [assumption|].
  inversion Hs; subst. simpl. apply IH; [assumption|].
  now apply normalize_piece_keeps_regular.
Qed.

(** The text [path.resolve] builds is empty or ends in a slash. *)
Lemma resolve_args_shape (args : list string) :
  fst (resolve_args args) = EmptyString
  \/ exists j, fst (resolve_args args) = j ++ "/".
Proof.
  induction args as [|a later IH]; simpl; [now left|].
  destruct (resolve_args later) as [acc absolute]; simpl in IH.
  destruct absolute; [assumption|].
  destruct a as [|c a]; [assumption|]. right. simpl.
  destruct IH as [->|[j ->]].
  - now exists (String c a).
  - exists (String c a ++ String slash j). simpl. now rewrite !append_assoc.
Qed.

(** A relative, non-empty last argument is appended with its slash. *)
Lemma resolve_args_snoc (args : list string) (x : string) :
  x <> EmptyString -> isAbsolute x = false ->
  resolve_args (args ++ [x])
  = (fst (resolve_args args) ++ x ++ "/", snd (resolve_args args)).
Proof.
  intros Hx Hrel. induction args as [|a later IH]; simpl.
  - destruct x as [|c x]; [congruence|]. simpl in *. now rewrite Hrel.
  - rewrite IH. destruct (resolve_args later) as [acc absolute]; simpl.
    destruct absolute; [reflexivity|].
    destruct a as [|c a]; [reflexivity|]. simpl.
    now rewrite !append_assoc.
Qed.

(** An empty last argument is skipped. *)
Lemma resolve_args_snoc_empty (args : list string) :
  resolve_args (args ++ [EmptyString]) = resolve_args args.
Proof.
  induction args as [|a later IH]; simpl; [reflexivity | now rewrite IH].
Qed.

(** Normalising the longer text continues from the shorter one. *)
Lemma normalize_snoc (above : bool) (args : list string) (x : string) :
  normalize_pieces above [] (split (fst (resolve_args args) ++ x ++ "/"))
  = normalize_pieces above
      (normalize_pieces above [] (split (fst (resolve_args args)))) (split x).
Proof.
  destruct (resolve_args_shape args) as [->|[j ->]].
  - simpl. rewrite split_app_slash, normalize_pieces_app. reflexivity.
  - rewrite append_assoc. change ("/" ++ x ++ "/") with (String slash (x ++ "/")).
    rewrite !split_app_slash, !normalize_pieces_app. reflexivity.
Qed.

Lemma resolve_snoc_dot (cwd : string) (args : list string) :
  resolve cwd (args ++ ["."]) = resolve cwd args.
Proof.
  unfold resolve, normalizeString.
  rewrite app_comm_cons, resolve_args_snoc by easy.
  cbv beta iota. rewrite normalize_snoc.
  now destruct (resolve_args (cwd :: args)) as [joined absolute].
Qed.

Lemma resolve_snoc_empty (cwd : string) (args : list string) :
  resolve cwd (args ++ [EmptyString]) = resolve cwd args.
Proof. unfold resolve. now rewrite app_comm_cons, resolve_args_snoc_empty. Qed.

Lemma resolve_args_absolute (cwd : string) (args : list string) :
  isAbsolute cwd = true -> snd (resolve_args (cwd :: args)) = true.
Proof.
  intros H. simpl. destruct (resolve_args args) as [acc absolute].
  destruct absolute; [reflexivity|].
  destruct cwd; [discriminate | exact H].
Qed.

(** With an absolute working directory [path.resolve] returns a slash and
    the regular pieces that are left. *)
Lemma resolve_pieces (cwd : string) (args : list string) :
  isAbsolute cwd = true ->
  resolve cwd args = String slash (join (resolved_pieces cwd args)).
Proof.
  intros H. pose proof (resolve_args_absolute cwd args H) as Habs.
  unfold resolve, resolved_pieces, normalizeString.
  destruct (resolve_args (cwd :: args)) as [joined absolute].
  simpl in Habs. now subst absolute.
Qed.

Lemma resolved_pieces_regular (cwd : string) (args : list string) :
  Forall (fun p => regular p = true) (resolved_pieces cwd args).
Proof.
  unfold resolved_pieces. apply Forall_rev.
  apply normalize_pieces_keep_regular; [apply split_pieces_no_slash | constructor].
Qed.

Lemma resolved_pieces_snoc (cwd : string) (args : list string) (x : string) :
  x <> EmptyString -> isAbsolute x = false ->
  resolved_pieces cwd (args ++ [x])
  = rev (normalize_pieces false (rev (resolved_pieces cwd args)) (split x)).
Proof.
  intros Hx Hrel. unfold resolved_pieces.
  rewrite app_comm_cons, resolve_args_snoc by assumption.
  cbn [fst]. now rewrite normalize_snoc, rev_involutive.
Qed.

Lemma join_regular_head (p : string) (rest : list string) :
  regular p = true ->
  join (p :: rest) <> EmptyString /\ isAbsolute (join (p :: rest)) = false.
Proof.
  intros H. destruct p as [|c p]; [discriminate|].
  assert (Hc : Ascii.eqb c slash = false).
  { unfold regular in H. apply andb_prop in H as [_ H]. simpl in H.
    now destruct (Ascii.eqb c slash). }
  destruct rest; simpl; (split; [discriminate | exact Hc]).
Qed.

(** Regular pieces appended to a path stay as they are. *)
Lemma resolved_pieces_snoc_regular (cwd : string) (args rest : list string) :
  rest <> [] -> Forall (fun p => regular p = true) rest ->
  resolved_pieces cwd (args ++ [join rest])
  = (resolved_pieces cwd args ++ rest)%list.
Proof.
  intros Hne Hall. destruct rest as [|p rest]; [congruence|].
  inversion Hall as [|? ? Hp Hrest]; subst.
  destruct (join_regular_head p rest Hp) as [H1 H2].
  rewrite resolved_pieces_snoc by assumption.
  rewrite split_join by (try discriminate; now apply regular_no_slash).
  rewrite normalize_pieces_regular by assumption.
  now rewrite rev_app_distr, !rev_involutive.
Qed.

(** Reading the pieces back from a resolved path. *)
Lemma pieces_of_resolved_join (pieces : list string) :
  Forall (fun p => regular p = true) pieces ->
  pieces_of_resolved (String slash (join pieces)) = pieces.
Proof.
  intros Hall. unfold pieces_of_resolved. simpl.
  destruct pieces as [|p rest]; [reflexivity|].
  rewrite split_join by (try discriminate; now apply regular_no_slash).
  apply forallb_filter_id. apply forallb_forall. intros x Hx.
  rewrite Forall_forall in Hall. specialize (Hall x Hx).
  unfold regular in Hall. repeat (apply andb_prop in Hall as [Hall ?]).
  exact Hall.
Qed.

(** A resolved path that starts with another one and a slash continues its
    pieces. *)
Lemma inside_pieces (R P : list string) :
  Forall (fun p => regular p = true) R ->
  Forall (fun p => regular p = true) P ->
  String.prefix (String slash (join R) ++ "/") (String slash (join P)) = true ->
  exists rest, P = (R ++ rest)%list /\ rest <> []
               /\ Forall (fun p => regular p = true) rest.
Proof.
  intros HR HP Hpre. apply prefix_inv in Hpre as [t Ht].
  simpl in Ht. injection Ht as Ht. rewrite append_assoc in Ht.
  change ("/" ++ t) with (String slash t) in Ht.
  assert (HPs : split (join P) = (split (join R) ++ split t)%list)
    by now rewrite Ht, split_app_slash.
  destruct P as [|p P'].
  - destruct (join R); discriminate.
  - rewrite split_join in HPs by (try discriminate; now apply regular_no_slash).
    destruct R as [|r R'].
    + simpl in HPs. injection HPs as -> _. inversion HP; discriminate.
    + rewrite split_join in HPs by (try discriminate; now apply regular_no_slash).
      exists (split t). split; [assumption|]. split; [apply split_not_nil|].
      rewrite HPs in HP. now apply Forall_app in HP as [_ HP].
Qed.

Lemma drop_common_app (R rest : list string) :
  drop_common R (R ++ rest) = ([], rest).
Proof.
  induction R as [|r R IH]; simpl; [now destruct rest|].
  now rewrite String.eqb_refl.
Qed.

End NodePathFacts.

(** ** The path sandbox *)

Module SandboxFacts.
Import JsString NodePath JsStringFacts NodePathFacts.

(** What [resolveSafe] returns is the workspace root or lies below it. *)
Lemma resolveSafe_contained (cwd root rel p : string) :
  resolveSafe cwd root rel = Normal p ->
  contained (workspace_root cwd root) p = true.
Proof.
  unfold resolveSafe, contained, workspace_root.
  rewrite append_nil_r.
  set (resolved := resolve cwd [root; _]).
  destruct (startsWith resolved _) eqn:Hpre; simpl.
  - intros [= <-]. rewrite Hpre. apply orb_true_r.
  - destruct (resolved =? resolve cwd [root]) eqn:Heq; simpl; [|discriminate].
    intros [= <-]. now rewrite Heq.
Qed.

(** [toRel] of a path strictly inside the root is the rest of its pieces. *)
Lemma toRel_inside (cwd root p : string) :
  isAbsolute cwd = true ->
  canonical cwd p ->
  strictly_inside (workspace_root cwd root) p = true ->
  exists rest,
    rest <> [] /\ Forall (fun x => regular x = true) rest
    /\ resolved_pieces cwd [p] = (resolved_pieces cwd [root] ++ rest)%list
    /\ toRel cwd root p = join rest.
Proof.
  intros Hcwd Hcan Hin.
  unfold strictly_inside, workspace_root, startsWith in Hin.
  assert (Hp : p = String slash (join (resolved_pieces cwd [p])))
    by (rewrite <- resolve_pieces by assumption; now rewrite Hcan).
  rewrite (resolve_pieces cwd [root] Hcwd) in Hin.
  assert (Hne : forall q, q = p ->
            String.prefix (String slash (join (resolved_pieces cwd [root])) ++ sep) p = true ->
            String slash (join (resolved_pieces cwd [root])) <> q).
  { intros q -> Hpre Heq. rewrite Heq in Hpre.
    now rewrite prefix_longer in Hpre. }
  pose proof Hin as Hin'. rewrite Hp in Hin'.
  apply inside_pieces in Hin' as (rest & Hrest & Hnil & Hreg);
    try apply resolved_pieces_regular.
  exists rest. repeat split; try assumption.
  unfold toRel, relative.
  destruct (String.eqb_spec root p) as [->|_].
  { exfalso. apply (Hne p eq_refl Hin). now rewrite <- Hp. }
  rewrite Hcan, (resolve_pieces cwd [root] Hcwd).
  destruct (String.eqb_spec (String slash (join (resolved_pieces cwd [root]))) p) as [Heq|_].
  { exfalso. exact (Hne p eq_refl Hin Heq). }
  pose proof (pieces_of_resolved_join _ (resolved_pieces_regular cwd [p])) as Hpp.
  rewrite <- Hp in Hpp.
  rewrite Hpp, pieces_of_resolved_join by apply resolved_pieces_regular.
  rewrite Hrest, drop_common_app. cbn [map app].
  destruct rest as [|x rest]; [congruence|].
  destruct (join_regular_head x rest) as [Hj _]; [now inversion Hreg|].
  destruct (join (x :: rest)); [congruence | reflexivity].
Qed.

(** The check of [resolveSafe] on a resolved path. *)
Lemma resolveSafe_check (cwd root rel : string) :
  resolveSafe cwd root rel
  = let resolved :=
      resolve cwd [root; strip_leading_slashes (or_default rel ".")] in
    if contained (workspace_root cwd root) resolved
    then Normal resolved else Throw outside_workspace.
Proof.
  unfold resolveSafe, contained, workspace_root. rewrite append_nil_r.
  cbv zeta. rewrite <- negb_orb, orb_comm.
  now destruct (_ || _).
Qed.

(** [resolveSafe] on the rest of the pieces gives the path back. *)
Lemma resolveSafe_rest (cwd root p : string) (rest : list string) :
  isAbsolute cwd = true ->
  canonical cwd p ->
  rest <> [] -> Forall (fun x => regular x = true) rest ->
  resolved_pieces cwd [p] = (resolved_pieces cwd [root] ++ rest)%list ->
  strictly_inside (workspace_root cwd root) p = true ->
  resolveSafe cwd root (join rest) = Normal p.
Proof.
  intros Hcwd Hcan Hne Hreg Hpieces Hin.
  destruct rest as [|x rest]; [congruence|].
  destruct (join_regular_head x rest) as [Hj Hrel]; [now inversion Hreg|].
  rewrite resolveSafe_check.
  assert (Hres : resolve cwd [root; join (x :: rest)] = p).
  { rewrite (resolve_pieces cwd _ Hcwd).
    change [root; join (x :: rest)] with ([root] ++ [join (x :: rest)])%list.
    rewrite resolved_pieces_snoc_regular, <- Hpieces by (assumption || discriminate).
    rewrite <- resolve_pieces by assumption. exact Hcan. }
  replace (or_default (join (x :: rest)) ".") with (join (x :: rest))
    by (destruct (join (x :: rest)); [congruence | reflexivity]).
  rewrite strip_no_leading_slash by assumption.
  cbv zeta. rewrite Hres. unfold contained.
  unfold strictly_inside in Hin. rewrite Hin. now rewrite orb_true_r.
Qed.

(** The pieces of a resolved path are read back by [path.resolve]. *)
Lemma resolved_pieces_of_path (cwd : string) (P : list string) :
  Forall (fun p => regular p = true) P ->
  resolved_pieces cwd [String slash (join P)] = P.
Proof.
  intros Hreg. unfold resolved_pieces.
  assert (E : resolve_args [cwd; String slash (join P)]
              = (String slash (join P ++ "/"), true)) by reflexivity.
  rewrite E. cbn [fst].
  assert (S : split (String slash (join P ++ "/"))
              = (EmptyString :: split (join P) ++ [EmptyString])%list)
    by (change (split (String slash (join P ++ "/")))
          with (EmptyString :: split (join P ++ String slash EmptyString));
        now rewrite split_app_slash).
  rewrite S.
  change (normalize_pieces false [] (EmptyString :: ?x))
    with (normalize_pieces false [] x).
  rewrite normalize_pieces_app.
  destruct P as [|x P']; [reflexivity|].
  rewrite split_join by (try discriminate; now apply regular_no_slash).
  rewrite (normalize_pieces_regular false (x :: P') [] Hreg).
  rewrite app_nil_r. cbn [normalize_pieces fold_left].
  change (normalize_piece false ?k EmptyString) with k.
  apply rev_involutive.
Qed.

(** [path.resolve] leaves a resolved path as it is. *)
Lemma resolve_idempotent (cwd : string) (args : list string) :
  isAbsolute cwd = true -> canonical cwd (resolve cwd args).
Proof.
  intros Hcwd. unfold canonical.
  rewrite (resolve_pieces cwd args Hcwd), (resolve_pieces cwd [_] Hcwd).
  now rewrite resolved_pieces_of_path by apply resolved_pieces_regular.
Qed.

Lemma resolve_root_dot (cwd root : string) :
  resolve cwd [root; "."] = resolve cwd [root].
Proof. exact (resolve_snoc_dot cwd [root]). Qed.

Lemma resolve_root_empty (cwd root : string) :
  resolve cwd [root; EmptyString] = resolve cwd [root].
Proof. exact (resolve_snoc_empty cwd [root]). Qed.

(** The candidate ["."] and the empty candidate both name the root. *)
Lemma resolveSafe_dot (cwd root : string) :
  resolveSafe cwd root "." = Normal (workspace_root cwd root)
  /\ resolveSafe cwd root EmptyString = Normal (workspace_root cwd root).
Proof.
  assert (H : resolveSafe cwd root "." = Normal (workspace_root cwd root)).
  { rewrite resolveSafe_check.
    change (strip_leading_slashes (or_default "." ".")) with ".".
    cbv zeta. rewrite resolve_root_dot. unfold contained, workspace_root.
    now rewrite String.eqb_refl. }
  split; [exact H | exact H].
Qed.

(** What [resolveSafe] returned, the root included, comes back from
    [resolveSafe (toRel p)]: these are the paths the file handlers hand to
    [toRel]. *)
Lemma resolveSafe_toRel_of_result (cwd root rel p : string) :
  isAbsolute cwd = true ->
  resolveSafe cwd root rel = Normal p ->
  resolveSafe cwd root (toRel cwd root p) = Normal p.
Proof.
  intros Hcwd Hres.
  assert (Hcan : canonical cwd p).
  { rewrite resolveSafe_check in Hres. cbv zeta in Hres.
    destruct (contained _ _); [|discriminate].
    injection Hres as <-. now apply resolve_idempotent. }
  pose proof (resolveSafe_contained _ _ _ _ Hres) as Hc.
  unfold contained in Hc. apply orb_prop in Hc as [Heq | Hin].
  - apply String.eqb_eq in Heq. subst p.
    assert (Hrel : toRel cwd root (workspace_root cwd root) = ".").
    { unfold toRel, relative.
      destruct (root =? workspace_root cwd root); [reflexivity|].
      fold (workspace_root cwd root). rewrite Hcan.
      now rewrite String.eqb_refl. }
    rewrite Hrel. apply resolveSafe_dot.
  - destruct (toRel_inside cwd root p Hcwd Hcan Hin)
      as (rest & Hne & Hreg & Hpieces & ->).
    now apply resolveSafe_rest.
Qed.

End SandboxFacts.

(** * The claims about the path sandbox *)

Import JsString NodePath JsStringFacts NodePathFacts SandboxFacts.

(** C9.  Round trip: for a working directory that is absolute (as
    [process.cwd()] always is), every path [p] in normal form that lies
    strictly inside the workspace root comes back from
    [resolveSafe (toRel p)]. *)
Theorem toRel_resolveSafe_roundtrip (cwd root p : string) :
  isAbsolute cwd = true ->
  canonical cwd p ->
  strictly_inside (workspace_root cwd root) p = true ->
  resolveSafe cwd root (toRel cwd root p) = Normal p.
Proof.
  intros Hcwd Hcan Hin.
  destruct (toRel_inside cwd root p Hcwd Hcan Hin)
    as (rest & Hne & Hreg & Hpieces & ->).
  now apply resolveSafe_rest.
Qed.

Lemma toRel_resolveSafe_roundtrip_witness :
  resolveSafe "/srv/app" "/home/dev/WorkSpace"
    (toRel "/srv/app" "/home/dev/WorkSpace" "/home/dev/WorkSpace/src/main.js")
  = Normal "/home/dev/WorkSpace/src/main.js".
Proof.
  apply (toRel_resolveSafe_roundtrip "/srv/app" "/home/dev/WorkSpace"
           "/home/dev/WorkSpace/src/main.js"); reflexivity.
Defined.

(** C1 (code at the failing input).  In the project-scoped revision the
    check is [resolved.startsWith(projectRoot)] without a separator: for
    the project ["demo"] the candidate ["../demo-secrets/key"] is returned
    although it lies in a sibling of the project root, not in it. *)
Theorem resolveWorkspacePath_returns_sibling :
  resolveWorkspacePath "/srv/app" "/srv/app/workspaces" "demo"
    "../demo-secrets/key"
  = Normal ("/srv/app/workspaces/demo",
            "/srv/app/workspaces/demo-secrets/key")
  /\ contained "/srv/app/workspaces/demo"
       "/srv/app/workspaces/demo-secrets/key" = false.
Proof. split; vm_compute; reflexivity. Qed.

(** The base name of [".."] is [".."]: for that project the project root
    is the parent of the workspace root, and paths below it are returned. *)
Remark resolveWorkspacePath_parent_project :
  resolveWorkspacePath "/srv/app" "/srv/app/workspaces" ".." "server.js"
  = Normal ("/srv/app", "/srv/app/server.js").
Proof. vm_compute; reflexivity. Qed.

(** C4 (claim as stated, refuted).  The project-scoped resolver does not
    strip: ["/etc/passwd"] is thrown out, while the stripped candidate
    resolves inside the project. *)
Lemma resolveWorkspacePath_keeps_leading_slash :
  resolveWorkspacePath "/srv/app" "/srv/app/workspaces" "demo" "/etc/passwd"
  = Throw outside_project
  /\ resolveWorkspacePath "/srv/app" "/srv/app/workspaces" "demo" "etc/passwd"
     = Normal ("/srv/app/workspaces/demo",
               "/srv/app/workspaces/demo/etc/passwd").
Proof. split; vm_compute; reflexivity. Qed.

(** C4 (amended).  [resolveSafe] strips every leading separator: a
    candidate with leading slashes resolves as the candidate without them
    does.  [resolveWorkspacePath] strips nothing: a candidate that begins
    with a slash is resolved as the absolute path it spells, whatever the
    project root, and is accepted only if that path has the project root
    as a literal prefix. *)
Theorem leading_slashes (cwd root : string) :
  (forall (n : nat) (c : string),
      resolveSafe cwd root (slashes (S n) ++ c) = resolveSafe cwd root c)
  /\ (forall (project tail : string),
      resolveWorkspacePath cwd root project (String slash tail)
      = match project with
        | EmptyString => Throw project_required
        | _ =>
            let projectRoot := resolve cwd [root; basename project] in
            let resolved := resolve cwd [String slash tail] in
            if startsWith resolved projectRoot
            then Normal (projectRoot, resolved)
            else Throw outside_project
        end).
Proof.
  split.
  - intros n c. rewrite !resolveSafe_check.
    change (or_default (slashes (S n) ++ c) ".") with (slashes (S n) ++ c).
    rewrite strip_slashes.
    destruct c as [|a c]; [|reflexivity].
    change (strip_leading_slashes (or_default EmptyString ".")) with ".".
    change (strip_leading_slashes EmptyString) with EmptyString.
    cbv zeta. now rewrite resolve_root_dot, resolve_root_empty.
  - intros project tail. unfold resolveWorkspacePath.
    destruct project as [|a project]; [reflexivity|].
    cbv zeta. change (or_default (String slash tail) ".") with (String slash tail).
    set (projectRoot := resolve cwd [root; _]).
    assert (E : resolve cwd [projectRoot; String slash tail]
                = resolve cwd [String slash tail]) by reflexivity.
    rewrite E. now destruct (startsWith _ _).
Qed.


(** * Facts about the terminal session *)

Module TerminalFacts.

Ltac unfold_calls :=
  unfold on_data, on_close, on_message, on_message_first, on_message_later,
    try_catch, bind, ret, lift, throw, parse,
    ws_send, ws_close, pty_write, pty_resize, pty_kill in *.

Ltac case_split :=
  repeat match goal with
         | |- context [match ?x with _ => _ end] => destruct x eqn:?
         end;
  simpl in *; try congruence; try discriminate.

Section Listeners.

Variable cwd : string.
Variable WORKSPACE_ROOT : string.
Variable existsSync : string -> bool.
Variable JSON_parse : string -> option value.
Variable lib : library.
Variable platform : string.
Variable SHELL : string.

Local Abbreviation stepE := (step cwd WORKSPACE_ROOT existsSync JSON_parse lib platform SHELL).
Local Abbreviation runE := (run cwd WORKSPACE_ROOT existsSync JSON_parse lib platform SHELL).

(** *** A new connection *)

Lemma on_connection_project_cases (req : request) :
  on_connection_project WORKSPACE_ROOT existsSync lib platform SHELL req fresh
  = let project := param_or (query_project req) "default" in
    let dir := NodePath.path_join [WORKSPACE_ROOT; NodePath.basename project] in
    if existsSync dir then
      if spawn_throws lib then (Throw LibraryError, fresh)
      else (Normal tt, opened platform SHELL dir)
    else (Normal tt, refused (project_not_found project)).
Proof.
  unfold on_connection_project. cbv zeta.
  destruct (existsSync _); simpl; [|reflexivity].
  unfold spawn_shell_in, listen, bind, pty_spawn.
  now destruct (spawn_throws lib).
Qed.

Lemma on_connection_workspace_cases (req : request) :
  on_connection_workspace cwd WORKSPACE_ROOT existsSync lib platform SHELL
    req fresh
  = let relPath := param_or (query_path req) "." in
    match resolveSafe cwd WORKSPACE_ROOT relPath with
    | Normal dir =>
        if existsSync dir then
          if spawn_throws lib then (Normal tt, refused "Server error")
          else (Normal tt, opened platform SHELL dir)
        else (Normal tt, refused (path_not_found relPath))
    | Throw _ => (Normal tt, refused "Server error")
    end.
Proof.
  unfold on_connection_workspace, try_catch, bind, lift. cbv zeta.
  destruct (resolveSafe _ _ _) as [dir|e]; [|reflexivity].
  destruct (existsSync dir); simpl; [|reflexivity].
  unfold spawn_shell_in, listen, bind, pty_spawn.
  now destruct (spawn_throws lib).
Qed.

(** *** Output of the shell *)

(** On an open connection every revision sends the chunk as it is. *)
Lemma on_data_open (rev : revision) (chunk : string) (w : world) :
  ws_state w = OPEN ->
  on_data lib rev chunk w = (Normal tt, with_sent w chunk).
Proof. intros H. destruct rev; unfold_calls; now rewrite H. Qed.



(** *** Inbound messages *)

(** Later revisions: a message that is no resize request is written to the
    shell as it came. *)
Lemma on_message_later_forwards (msg : string) (w : world) :
  resize_request JSON_parse msg = None ->
  on_message_later JSON_parse lib msg w = (Normal tt, with_written w msg).
Proof.
  unfold resize_request. intros H. unfold_calls.
  destruct (JSON_parse msg) as [v|]; [|reflexivity].
  destruct v as [| |b|x|s|items|fields]; simpl;
    [ reflexivity | reflexivity | now destruct b
    | now destruct (negb _ && _) | now destruct (negb _) | reflexivity | ].
  destruct (Js.own_property "type" fields) as [t|]; simpl; [|reflexivity].
  destruct t as [| | | |s| |]; simpl; try reflexivity.
  destruct (s =? "resize"); [discriminate | reflexivity].
Qed.

(** Later revisions: a resize request asks for [cols || 80] by
    [rows || 24]; if the library raises, the [catch] falls through to the
    write. *)
Lemma on_message_later_resize (msg : string) (cols rows : value) (w : world) :
  resize_request JSON_parse msg = Some (cols, rows) ->
  on_message_later JSON_parse lib msg w
  = if resize_throws lib (Js.or cols (VNum 80)) (Js.or rows (VNum 24))
    then (Normal tt, with_written w msg)
    else (Normal tt,
          with_size w (Js.or cols (VNum 80)) (Js.or rows (VNum 24))).
Proof.
  unfold resize_request. intros H. unfold_calls.
  destruct (JSON_parse msg) as [v|]; [|discriminate].
  destruct v as [| | | | | |fields]; try discriminate. simpl.
  destruct (Js.own_property "type" fields) as [t|]; [|discriminate].
  destruct t as [| | | |s| |]; try discriminate. simpl.
  destruct (s =? "resize"); [|discriminate].
  injection H as <- <-.
  destruct (Js.own_property "cols" fields), (Js.own_property "rows" fields);
    simpl; now destruct (resize_throws lib _ _).
Qed.

(** First revision: the write is the [catch] branch only, so text that
    parses and is no resize request goes nowhere. *)
Lemma on_message_first_cases (msg : string) (w : world) :
  on_message_first JSON_parse lib msg w
  = match JSON_parse msg with
    | None | Some VNull | Some VUndefined => (Normal tt, with_written w msg)
    | Some _ =>
        match resize_request JSON_parse msg with
        | Some (cols, rows) =>
            if resize_throws lib cols rows
            then (Normal tt, with_written w msg)
            else (Normal tt, with_size w cols rows)
        | None => (Normal tt, w)
        end
    end.
Proof.
  unfold resize_request. unfold_calls.
  destruct (JSON_parse msg) as [v|]; [|reflexivity].
  destruct v as [| | | | | |fields]; simpl; try reflexivity.
  destruct (Js.own_property "type" fields) as [t|]; simpl; [|reflexivity].
  destruct t as [| | | |s| |]; simpl; try reflexivity.
  destruct (s =? "resize"); [|reflexivity].
  destruct (Js.own_property "cols" fields), (Js.own_property "rows" fields);
    simpl; now destruct (resize_throws lib _ _).
Qed.

(** *** What an event leaves alone *)

Lemma same_session_refl (w : world) : same_session w w.
Proof. repeat split. Qed.

Lemma same_session_trans (w1 w2 w3 : world) :
  same_session w1 w2 -> same_session w2 w3 -> same_session w1 w3.
Proof.
  unfold same_session. intros (?&?&?&?&?&?) (?&?&?&?&?&?).
  repeat split; congruence.
Qed.

Lemma on_data_same (rev : revision) (chunk : string) (w : world) :
  same_session w (snd (on_data lib rev chunk w)).
Proof.
  destruct rev; unfold_calls; destruct (ws_state w) eqn:E;
    try destruct (send_unopened_throws lib); repeat split; simpl; congruence.
Qed.

Lemma on_message_same (rev : revision) (msg : string) (w : world) :
  same_session w (snd (on_message JSON_parse lib rev msg w)).
Proof.
  destruct rev; unfold on_message.
  - rewrite on_message_first_cases.
    destruct (JSON_parse msg) as [v|]; [|repeat split].
    destruct v; try (repeat split; fail);
      destruct (resize_request JSON_parse msg) as [[c r]|];
      try destruct (resize_throws lib c r); repeat split.
  - destruct (resize_request JSON_parse msg) as [[c r]|] eqn:E.
    + rewrite (on_message_later_resize msg c r w E).
      destruct (resize_throws lib _ _); repeat split.
    + rewrite (on_message_later_forwards msg w E). repeat split.
  - destruct (resize_request JSON_parse msg) as [[c r]|] eqn:E.
    + rewrite (on_message_later_resize msg c r w E).
      destruct (resize_throws lib _ _); repeat split.
    + rewrite (on_message_later_forwards msg w E). repeat split.
Qed.

(** Output, messages and the exit of the shell leave the connection, the
    listeners and the kill count as they are. *)
Lemma step_during_session (rev : revision) (ev : event) (w : world) :
  during_session ev = true -> same_session w (snd (stepE rev ev w)).
Proof.
  destruct ev; simpl; try discriminate; intros _.
  - destruct (listens_data w); [apply on_data_same | apply same_session_refl].
  - destruct (listens_message w); [apply on_message_same | apply same_session_refl].
  - repeat split.
Qed.

Lemma run_during_session (rev : revision) (evs : list event) (w : world) :
  forallb during_session evs = true -> same_session w (snd (runE rev evs w)).
Proof.
  revert w. induction evs as [|ev evs IH]; intros w H; simpl in *.
  - apply same_session_refl.
  - apply andb_prop in H as [Hev Hevs].
    pose proof (step_during_session rev ev w Hev) as Hstep.
    unfold bind. destruct (stepE rev ev w) as [[[]|e] w1]; simpl in *.
    + eapply same_session_trans; [exact Hstep | now apply IH].
    + exact Hstep.
Qed.

(** The close listener: the shell is killed once and the connection is
    marked closed. *)
Lemma on_close_kills (rev : revision) (w : world) :
  snd (on_close lib rev w) = with_kill w.
Proof. destruct rev; unfold_calls; now destruct (kill_throws lib). Qed.


(** Once the connection is closed, no event but a new connection changes
    that, or kills again. *)
Lemma step_closed (rev : revision) (ev : event) (w : world) :
  is_closed w = true -> is_connection ev = false ->
  is_closed (snd (stepE rev ev w)) = true
  /\ pty_kills (snd (stepE rev ev w)) = pty_kills w.
Proof.
  intros Hc Hev. destruct ev; try discriminate.
  - destruct (step_during_session rev (ShellOutput chunk) w eq_refl) as (H1&H2&_).
    unfold is_closed in *. now rewrite H1, H2.
  - destruct (step_during_session rev (Inbound msg) w eq_refl) as (H1&H2&_).
    unfold is_closed in *. now rewrite H1, H2.
  - unfold is_closed in Hc. simpl. destruct (ws_state w) eqn:E; try discriminate.
    unfold is_closed. simpl. now rewrite E.
  - destruct (step_during_session rev ShellExit w eq_refl) as (H1&H2&_).
    unfold is_closed in *. now rewrite H1, H2.
Qed.

Lemma run_closed (rev : revision) (evs : list event) (w : world) :
  is_closed w = true -> forallb (fun ev => negb (is_connection ev)) evs = true ->
  is_closed (snd (runE rev evs w)) = true
  /\ pty_kills (snd (runE rev evs w)) = pty_kills w.
Proof.
  revert w. induction evs as [|ev evs IH]; intros w Hc H; simpl in *.
  - now split.
  - apply andb_prop in H as [Hev Hevs]. apply negb_true_iff in Hev.
    destruct (step_closed rev ev w Hc Hev) as [Hc1 Hk1].
    unfold bind. destruct (stepE rev ev w) as [[[]|e] w1]; simpl in *.
    + destruct (IH w1 Hc1 Hevs) as [Hc2 Hk2]. split; [assumption | congruence].
    + now split.
Qed.


End Listeners.

End TerminalFacts.

(** ** Facts about the server's set of connections *)

Module ServerFacts.
Import TerminalFacts.



Section Connections.

Variable cwd : string.
Variable WORKSPACE_ROOT : string.
Variable existsSync : string -> bool.
Variable JSON_parse : string -> option value.
Variable lib : library.
Variable platform : string.
Variable SHELL : string.

Local Abbreviation stepE :=
  (step cwd WORKSPACE_ROOT existsSync JSON_parse lib platform SHELL).
Local Abbreviation runE :=
  (run cwd WORKSPACE_ROOT existsSync JSON_parse lib platform SHELL).
Local Abbreviation serveE :=
  (serve cwd WORKSPACE_ROOT existsSync JSON_parse lib platform SHELL).
Local Abbreviation serve_allE :=
  (serve_all cwd WORKSPACE_ROOT existsSync JSON_parse lib platform SHELL).







End Connections.

End ServerFacts.

(** * The claims about the terminal session *)

Import TerminalFacts ServerFacts.

Section SessionClaims.

Variable cwd : string.
Variable WORKSPACE_ROOT : string.
Variable existsSync : string -> bool.
Variable JSON_parse : string -> option value.
Variable lib : library.
Variable platform : string.
Variable SHELL : string.

Local Abbreviation stepE :=
  (step cwd WORKSPACE_ROOT existsSync JSON_parse lib platform SHELL).
Local Abbreviation runE :=
  (run cwd WORKSPACE_ROOT existsSync JSON_parse lib platform SHELL).
Local Abbreviation serveE :=
  (serve cwd WORKSPACE_ROOT existsSync JSON_parse lib platform SHELL).
Local Abbreviation serve_allE :=
  (serve_all cwd WORKSPACE_ROOT existsSync JSON_parse lib platform SHELL).

(** C3 (amended).  No revision registers a listener for the exit of the
    shell: when it ends on its own the session only records it, the frames
    already sent stay sent, and through whatever output and messages
    follow the connection keeps the state it had; the session never
    closes it. *)
Theorem shell_exit_leaves_connection
    (rev : revision) (w : world) (evs : list event) :
  forallb during_session evs = true ->
  stepE rev ShellExit w = (Normal tt, mark_exited w)
  /\ ws_sent (mark_exited w) = ws_sent w
  /\ ws_state (snd (runE rev (ShellExit :: evs) w)) = ws_state w.
Proof.
  intros H. split; [reflexivity|]. split; [reflexivity|].
  assert (Hall : forallb during_session (ShellExit :: evs) = true) by exact H.
  now destruct (run_during_session cwd WORKSPACE_ROOT existsSync JSON_parse
                  lib platform SHELL rev _ w Hall) as [Hst _].
Qed.

(** C5 (amended).  In the two part_000 revisions a resize request asks the
    terminal for [cols || 80] by [rows || 24]: a field that is absent or
    falsy gives 80 (24), any other value, a number or not, is passed on as
    it is; when the request returns, the size is that and nothing is
    written to the shell. *)
Theorem resize_sets_size
    (rev : revision) (msg : string) (cols rows : value) (w : world) :
  guarded rev = true ->
  listens_message w = true ->
  resize_request JSON_parse msg = Some (cols, rows) ->
  resize_throws lib (Js.or cols (VNum 80)) (Js.or rows (VNum 24)) = false ->
  stepE rev (Inbound msg) w
  = (Normal tt, with_size w (Js.or cols (VNum 80)) (Js.or rows (VNum 24)))
  /\ (Js.truthy cols = false -> Js.or cols (VNum 80) = VNum 80)
  /\ (Js.truthy rows = false -> Js.or rows (VNum 24) = VNum 24)
  /\ (Js.truthy cols = true -> Js.or cols (VNum 80) = cols)
  /\ (Js.truthy rows = true -> Js.or rows (VNum 24) = rows).
Proof.
  intros Hrev Hl Hreq Hok. split.
  - cbn [step]. rewrite Hl.
    destruct rev; [discriminate| |]; unfold on_message;
      now rewrite (on_message_later_resize JSON_parse lib msg cols rows w Hreq), Hok.
  - unfold Js.or. repeat split; now intros ->.
Qed.



(** C8.  When the directory a new connection asks for is not on disk, the
    listener sends the one frame that says so and closes the connection:
    nothing is spawned and no listener is registered. *)
Theorem missing_directory_is_refused
    (rev : revision) (req : request) (dir : string) :
  requested_dir cwd WORKSPACE_ROOT rev req = Normal dir ->
  existsSync dir = false ->
  stepE rev (Connection req) fresh
  = (Normal tt, refused (diagnostic rev req)).
Proof.
  intros Hdir Hmissing. cbn [step].
  destruct rev; unfold on_connection, requested_dir, diagnostic in *.
  - injection Hdir as <-. rewrite on_connection_project_cases.
    cbv zeta. now rewrite Hmissing.
  - rewrite on_connection_workspace_cases. cbv zeta. now rewrite Hdir, Hmissing.
  - injection Hdir as <-. rewrite on_connection_project_cases.
    cbv zeta. now rewrite Hmissing.
Qed.

(** C10.  Whatever the request, a shell is spawned at 80 columns by 24
    rows or not at all, and after that no event but a resize request (or
    another connection) changes the size. *)
Theorem spawned_at_80_by_24
    (rev : revision) (req : request) (ev : event) (w : world) :
  is_connection ev = false ->
  resize_of JSON_parse ev = None ->
  (let w0 := snd (stepE rev (Connection req) fresh) in
   (pty_spawned w0 = [] /\ pty_size w0 = None)
   \/ (exists dir,
         pty_spawned w0
         = [mkSpawn (shell platform SHELL) (VNum 80) (VNum 24) dir]
         /\ pty_size w0 = Some (VNum 80, VNum 24)))
  /\ pty_size (snd (stepE rev ev w)) = pty_size w.
Proof.
  intros Hev Hreq. split.
  - cbn [step]. cbv zeta.
    destruct rev; unfold on_connection;
      rewrite ?on_connection_project_cases, ?on_connection_workspace_cases;
      cbv zeta; case_split; eauto.
  - destruct ev; try discriminate; cbn [step resize_of] in *.
    + destruct (listens_data w); [|reflexivity].
      destruct rev; unfold_calls; destruct (ws_state w);
        try destruct (send_unopened_throws lib); reflexivity.
    + destruct (listens_message w); [|reflexivity].
      destruct rev; unfold on_message.
      * rewrite on_message_first_cases, Hreq.
        destruct (JSON_parse msg) as [v|]; [|reflexivity]. now destruct v.
      * now rewrite (on_message_later_forwards JSON_parse lib msg w Hreq).
      * now rewrite (on_message_later_forwards JSON_parse lib msg w Hreq).
    + unfold is_closed. destruct (ws_state w); try reflexivity;
        (destruct (listens_close w); [now rewrite on_close_kills | reflexivity]).
    + reflexivity.
Qed.

End SessionClaims.

(** ** The claims at concrete sessions *)

Lemma shell_exit_leaves_connection_witness :
  forallb during_session [ShellOutput "late"; Inbound "ls"] = true
  /\ ws_state
       (snd (Example.run Example.quiet ProjectScoped
               [ShellExit; ShellOutput "late"; Inbound "ls"] Example.session))
     = OPEN.
Proof.
  split; [reflexivity|].
  apply (shell_exit_leaves_connection Example.cwd Example.WORKSPACE_ROOT
           Example.existsSync JsonText.JSON_parse Example.quiet
           "linux" "/bin/sh" ProjectScoped Example.session
           [ShellOutput "late"; Inbound "ls"]).
  reflexivity.
Defined.

(** C3 (claim as stated, refuted).  A session is opened, the shell writes
    and ends on its own: in every revision the frame was sent, the shell
    is gone, and the connection is still open. *)
Lemma shell_exit_connection_stays_open :
  Example.run Example.quiet FirstRevision
    [Connection Example.demo; ShellOutput "logout"; ShellExit] fresh
  = (Normal tt, with_exited (with_sent Example.session "logout"))
  /\ Example.run Example.quiet SingleWorkspace
       [Connection Example.demo; ShellOutput "logout"; ShellExit] fresh
     = (Normal tt, with_exited (with_sent Example.session "logout"))
  /\ Example.run Example.quiet ProjectScoped
       [Connection Example.demo; ShellOutput "logout"; ShellExit] fresh
     = (Normal tt, with_exited (with_sent Example.session "logout"))
  /\ ws_state (with_exited (with_sent Example.session "logout")) = OPEN.
Proof. repeat split; vm_compute; reflexivity. Qed.

(** C2 (code at the failing input).  The keystroke [1] is valid JSON and no
    resize request: the first revision writes nothing to the shell, the
    later revisions write it. *)
Theorem first_revision_drops_parsed_input :
  resize_request JsonText.JSON_parse "1" = None
  /\ Example.step Example.quiet FirstRevision (Inbound "1") Example.session
     = (Normal tt, Example.session)
  /\ Example.step Example.quiet SingleWorkspace (Inbound "1") Example.session
     = (Normal tt, with_written Example.session "1")
  /\ Example.step Example.quiet ProjectScoped (Inbound "1") Example.session
     = (Normal tt, with_written Example.session "1").
Proof. repeat split; vm_compute; reflexivity. Qed.

(** C5 (claim as stated, refuted).  A resize request whose [cols] is the
    text ["wide"] asks for that text, not for 80 columns, in the
    project-scoped revision; if the library raises on it, the request is
    written to the shell as input.  The first revision has no defaults at
    all and passes [undefined] for fields that are absent. *)
Lemma resize_passes_non_numeric :
  resize_request JsonText.JSON_parse Example.resize_wide_40
  = Some (VStr "wide", VNum 40)
  /\ Example.step Example.quiet ProjectScoped
       (Inbound Example.resize_wide_40) Example.session
     = (Normal tt, with_size Example.session (VStr "wide") (VNum 40))
  /\ Example.step Example.strict ProjectScoped
       (Inbound Example.resize_wide_40) Example.session
     = (Normal tt, with_written Example.session Example.resize_wide_40)
  /\ Example.step Example.quiet FirstRevision
       (Inbound Example.resize_bare) Example.session
     = (Normal tt, with_size Example.session VUndefined VUndefined).
Proof. repeat split; vm_compute; reflexivity. Qed.

Lemma resize_sets_size_witness :
  resize_request JsonText.JSON_parse Example.resize_120_40
  = Some (VNum 120, VNum 40)
  /\ Example.step Example.quiet ProjectScoped
       (Inbound Example.resize_120_40) Example.session
     = (Normal tt, with_size Example.session (VNum 120) (VNum 40)).
Proof.
  split; [vm_compute; reflexivity|].
  apply (resize_sets_size Example.cwd Example.WORKSPACE_ROOT
           Example.existsSync JsonText.JSON_parse Example.quiet
           "linux" "/bin/sh" ProjectScoped Example.resize_120_40
           (VNum 120) (VNum 40) Example.session);
    vm_compute; reflexivity.
Defined.



Lemma missing_directory_is_refused_witness :
  requested_dir Example.cwd Example.WORKSPACE_ROOT ProjectScoped
    (mkRequest (Some "ghost") None)
  = Normal "/srv/app/workspaces/ghost"
  /\ Example.existsSync "/srv/app/workspaces/ghost" = false
  /\ Example.step Example.quiet ProjectScoped
       (Connection (mkRequest (Some "ghost") None)) fresh
     = (Normal tt, refused "Project 'ghost' not found.").
Proof.
  split; [vm_compute; reflexivity|]. split; [reflexivity|].
  apply (missing_directory_is_refused Example.cwd Example.WORKSPACE_ROOT
           Example.existsSync JsonText.JSON_parse Example.quiet
           "linux" "/bin/sh" ProjectScoped (mkRequest (Some "ghost") None)
           "/srv/app/workspaces/ghost");
    vm_compute; reflexivity.
Defined.

Lemma spawned_at_80_by_24_witness :
  pty_size (snd (Example.step Example.quiet FirstRevision
                   (Connection Example.demo) fresh))
  = Some (VNum 80, VNum 24)
  /\ pty_size (snd (Example.step Example.quiet FirstRevision
                      (Inbound "cols=120") Example.session))
     = Some (VNum 80, VNum 24).
Proof.
  split; [vm_compute; reflexivity|].
  apply (proj2 (spawned_at_80_by_24 Example.cwd Example.WORKSPACE_ROOT
                  Example.existsSync JsonText.JSON_parse Example.quiet
                  "linux" "/bin/sh" FirstRevision Example.demo
                  (Inbound "cols=120") Example.session eq_refl eq_refl)).
Defined.

(** * More about the path sandbox *)

Module SandboxMore.

Lemma join_app (R rest : list string) :
  R <> [] -> rest <> [] ->
  join (R ++ rest) = join R ++ String slash (join rest).
Proof.
  induction R as [|r R IH]; [congruence|]. intros _ Hrest.
  destruct R as [|r' R'].
  - destruct rest; [congruence | reflexivity].
  - change (join ((r :: r' :: R') ++ rest))
      with (r ++ String slash (join ((r' :: R') ++ rest))).
    rewrite IH by (discriminate || assumption).
    change (join (r :: r' :: R')) with (r ++ String slash (join (r' :: R'))).
    now rewrite append_assoc.
Qed.

Lemma prefix_app_assoc (a b : string) :
  String.prefix (a ++ "/") (a ++ String slash b) = true.
Proof.
  induction a as [|c a IH].
  - change (String.prefix "/" (String slash b)) with (String.prefix "" b).
    now destruct b.
  - simpl. destruct (ascii_dec c c); [assumption | congruence].
Qed.

Lemma prefix_cons (c d : ascii) (a b : string) :
  String.prefix (String c a) (String d b)
  = if Ascii.eqb c d then String.prefix a b else false.
Proof.
  cbn [String.prefix].
  destruct (ascii_dec c d), (Ascii.eqb_spec c d); congruence.
Qed.

Lemma regular_forallb (pieces : list string) :
  forallb regular pieces = true <-> Forall (fun x => regular x = true) pieces.
Proof.
  rewrite forallb_forall, Forall_forall. reflexivity.
Qed.

(** The pieces of the workspace root, read back from it. *)
Lemma workspace_root_pieces (cwd root : string) :
  isAbsolute cwd = true ->
  workspace_root cwd root = String slash (join (resolved_pieces cwd [root]))
  /\ resolved_pieces cwd [workspace_root cwd root] = resolved_pieces cwd [root].
Proof.
  intros Hcwd. unfold workspace_root.
  rewrite (resolve_pieces cwd [root] Hcwd). split; [reflexivity|].
  apply resolved_pieces_of_path, resolved_pieces_regular.
Qed.

(** What [resolveSafe] returns consists of the pieces of the root and
    regular pieces after them. *)
Lemma resolveSafe_pieces (cwd root rel p : string) :
  isAbsolute cwd = true ->
  resolveSafe cwd root rel = Normal p ->
  canonical cwd p
  /\ exists rest,
      forallb regular rest = true
      /\ resolved_pieces cwd [p] = (resolved_pieces cwd [root] ++ rest)%list.
Proof.
  intros Hcwd Hres.
  assert (Hcan : canonical cwd p).
  { rewrite resolveSafe_check in Hres. cbv zeta in Hres.
    destruct (contained _ _); [|discriminate].
    injection Hres as <-. now apply resolve_idempotent. }
  split; [exact Hcan|].
  pose proof (resolveSafe_contained _ _ _ _ Hres) as Hc.
  unfold contained in Hc. apply orb_prop in Hc as [Heq | Hin].
  - apply String.eqb_eq in Heq. subst p. exists [].
    split; [reflexivity|]. rewrite app_nil_r.
    now apply workspace_root_pieces.
  - destruct (toRel_inside cwd root p Hcwd Hcan Hin)
      as (rest & _ & Hreg & Hpieces & _).
    exists rest. split; [now apply regular_forallb | exact Hpieces].
Qed.

(** A plain relative path lands below the root, where it says. *)
Lemma resolveSafe_relative (cwd root : string) (rest : list string) :
  isAbsolute cwd = true ->
  resolved_pieces cwd [root] <> [] ->
  rest <> [] -> Forall (fun x => regular x = true) rest ->
  resolveSafe cwd root (join rest)
  = Normal (workspace_root cwd root ++ String slash (join rest)).
Proof.
  intros Hcwd HR Hne Hreg.
  destruct (workspace_root_pieces cwd root Hcwd) as [Hwr _].
  set (p := workspace_root cwd root ++ String slash (join rest)).
  assert (Hp : p = String slash (join (resolved_pieces cwd [root] ++ rest))).
  { unfold p. rewrite Hwr, join_app by assumption. reflexivity. }
  assert (Hall : Forall (fun x => regular x = true)
                   (resolved_pieces cwd [root] ++ rest))
    by (apply Forall_app; split; [apply resolved_pieces_regular | assumption]).
  assert (Hpp : resolved_pieces cwd [p] = (resolved_pieces cwd [root] ++ rest)%list)
    by (rewrite Hp; now apply resolved_pieces_of_path).
  apply resolveSafe_rest; try assumption.
  - unfold canonical. rewrite (resolve_pieces cwd [p] Hcwd), Hpp. now rewrite Hp.
  - unfold strictly_inside, startsWith, p, sep. apply prefix_app_assoc.
Qed.

(** [toRel] of the root is ["."]. *)
Lemma toRel_root (cwd root : string) :
  isAbsolute cwd = true ->
  toRel cwd root (workspace_root cwd root) = ".".
Proof.
  intros Hcwd. unfold toRel, relative.
  destruct (root =? workspace_root cwd root); [reflexivity|].
  fold (workspace_root cwd root).
  pose proof (resolve_idempotent cwd [root] Hcwd) as Hcan.
  unfold canonical in Hcan. fold (workspace_root cwd root) in Hcan.
  now rewrite Hcan, String.eqb_refl.
Qed.

(** What [toRel] makes of a result of [resolveSafe]: ["."] for the root,
    regular pieces for anything below it. *)
Lemma toRel_result_shape (cwd root rel p : string) :
  isAbsolute cwd = true ->
  resolveSafe cwd root rel = Normal p ->
  (p = workspace_root cwd root /\ toRel cwd root p = ".")
  \/ (exists rest, rest <> [] /\ Forall (fun x => regular x = true) rest
                   /\ toRel cwd root p = join rest).
Proof.
  intros Hcwd Hres.
  destruct (resolveSafe_pieces cwd root rel p Hcwd Hres) as [Hcan _].
  pose proof (resolveSafe_contained _ _ _ _ Hres) as Hc.
  unfold contained in Hc. apply orb_prop in Hc as [Heq | Hin].
  - left. apply String.eqb_eq in Heq. subst p. split; [reflexivity|].
    now apply toRel_root.
  - right. destruct (toRel_inside cwd root p Hcwd Hcan Hin)
      as (rest & Hne & Hreg & _ & Hrel).
    now exists rest.
Qed.

(** Candidates that name the root. *)
Lemma resolveSafe_slashes (cwd root : string) (n : nat) :
  resolveSafe cwd root (slashes n) = Normal (workspace_root cwd root).
Proof.
  destruct n as [|n]; [apply resolveSafe_dot|].
  rewrite resolveSafe_check.
  change (or_default (slashes (S n)) ".") with (slashes (S n)).
  rewrite <- (append_nil_r (slashes (S n))), strip_slashes.
  change (strip_leading_slashes EmptyString) with EmptyString.
  cbv zeta. rewrite resolve_root_empty. unfold contained.
  fold (workspace_root cwd root). now rewrite String.eqb_refl.
Qed.

(** A base name is one piece of the path: it has no slash. *)
Lemma basename_no_slash (p : string) : has_slash (basename p) = false.
Proof.
  unfold basename.
  destruct (filter _ (rev (split p))) as [|last others] eqn:E; [reflexivity|].
  assert (Hin : In last (filter (fun piece => negb (piece =? "")) (rev (split p))))
    by (rewrite E; now left).
  apply filter_In in Hin as [Hin _]. apply in_rev in Hin.
  pose proof (split_pieces_no_slash p) as Hall.
  rewrite Forall_forall in Hall. now apply Hall.
Qed.

Lemma regular_basename_project (project : string) :
  regular (basename project) = true -> project <> EmptyString.
Proof. intros H ->. discriminate. Qed.

(** With a regular base name the project root is the child of the
    workspace root of that name. *)
Lemma project_root_pieces (cwd root b : string) :
  isAbsolute cwd = true -> regular b = true ->
  resolved_pieces cwd [root; b] = (resolved_pieces cwd [root] ++ [b])%list.
Proof.
  intros Hcwd Hb.
  exact (resolved_pieces_snoc_regular cwd [root] [b]
           ltac:(discriminate) (Forall_cons _ Hb (Forall_nil _))).
Qed.

(** Below a resolved path, regular pieces land where they say. *)
Lemma resolve_below (cwd base : string) (rest : list string) :
  isAbsolute cwd = true -> canonical cwd base ->
  resolved_pieces cwd [base] <> [] ->
  rest <> [] -> Forall (fun x => regular x = true) rest ->
  resolve cwd [base; join rest] = base ++ String slash (join rest).
Proof.
  intros Hcwd Hcan HQ Hne Hreg.
  assert (Hb : base = String slash (join (resolved_pieces cwd [base])))
    by (rewrite <- resolve_pieces by assumption; now rewrite Hcan).
  rewrite (resolve_pieces cwd _ Hcwd).
  change [base; join rest] with ([base] ++ [join rest])%list.
  rewrite resolved_pieces_snoc_regular, join_app by assumption.
  now rewrite Hb at 2.
Qed.

(** A path strictly inside the root: the root is not ["/"]. *)
Lemma inside_root_pieces (cwd root p : string) :
  isAbsolute cwd = true -> canonical cwd p ->
  strictly_inside (workspace_root cwd root) p = true ->
  resolved_pieces cwd [root] <> [].
Proof.
  intros Hcwd Hcan Hin HR.
  destruct (workspace_root_pieces cwd root Hcwd) as [Hwr _].
  unfold strictly_inside, startsWith in Hin. rewrite Hwr, HR in Hin.
  assert (Hp : p = String slash (join (resolved_pieces cwd [p])))
    by (rewrite <- resolve_pieces by assumption; now rewrite Hcan).
  pose proof (resolved_pieces_regular cwd [p]) as Hreg.
  rewrite Hp in Hin. destruct (resolved_pieces cwd [p]) as [|x P].
  - discriminate.
  - inversion Hreg as [|? ? Hx _]; subst.
    destruct (join_regular_head x P Hx) as [Hne Hrel].
    destruct (join (x :: P)) as [|c t]; [congruence|].
    cbn [isAbsolute] in Hrel.
    change (String slash (join []) ++ sep) with (String slash (String slash ""))
      in Hin.
    rewrite !prefix_cons, Ascii.eqb_refl, Ascii.eqb_sym, Hrel in Hin.
    discriminate.
Qed.

Lemma root_not_slash_pieces (cwd root : string) :
  isAbsolute cwd = true ->
  (workspace_root cwd root =? "/") = false ->
  resolved_pieces cwd [root] <> [].
Proof.
  intros Hcwd Hne HR.
  destruct (workspace_root_pieces cwd root Hcwd) as [Hwr _].
  rewrite Hwr, HR in Hne. discriminate.
Qed.

(** A base name is its own base name. *)
Lemma basename_idempotent (p : string) : basename (basename p) = basename p.
Proof.
  pose proof (basename_no_slash p) as Hs.
  set (b := basename p) in *. unfold basename at 1.
  rewrite (split_no_slash b Hs). simpl.
  destruct b; reflexivity.
Qed.

(** The project root of an ordinary name, and plain paths below it. *)
Lemma resolveWorkspacePath_plain
    (cwd root project : string) (rest : list string) :
  isAbsolute cwd = true ->
  regular (basename project) = true ->
  forallb regular rest = true ->
  let projectRoot := resolve cwd [root; basename project] in
  projectRoot
  = String slash (join (resolved_pieces cwd [root] ++ [basename project]))
  /\ resolveWorkspacePath cwd root project "." = Normal (projectRoot, projectRoot)
  /\ resolveWorkspacePath cwd root project (join rest)
     = Normal (projectRoot,
               match rest with
               | [] => projectRoot
               | _ => projectRoot ++ String slash (join rest)
               end).
Proof.
  intros Hcwd Hb Hreg projectRoot.
  pose proof (regular_basename_project project Hb) as Hproject.
  pose proof (resolve_idempotent cwd [root; basename project] Hcwd) as Hcan.
  fold projectRoot in Hcan.
  assert (Hpr : projectRoot
                = String slash (join (resolved_pieces cwd [root] ++ [basename project]))).
  { unfold projectRoot. rewrite (resolve_pieces cwd _ Hcwd).
    now rewrite project_root_pieces. }
  assert (Hdot : resolveWorkspacePath cwd root project "."
                 = Normal (projectRoot, projectRoot)).
  { unfold resolveWorkspacePath. destruct project; [congruence|].
    fold projectRoot. cbv zeta. change (or_default "." ".") with ".".
    rewrite resolve_root_dot. unfold canonical in Hcan. rewrite Hcan.
    unfold startsWith.
    rewrite <- (append_nil_r projectRoot) at 2. now rewrite prefix_app. }
  split; [exact Hpr|]. split; [exact Hdot|].
  destruct rest as [|x more]; [exact Hdot|].
  apply regular_forallb in Hreg.
  destruct (join_regular_head x more) as [Hne _]; [now inversion Hreg|].
  unfold resolveWorkspacePath. destruct project; [congruence|].
  fold projectRoot. cbv zeta.
  replace (or_default (join (x :: more)) ".") with (join (x :: more))
    by (destruct (join (x :: more)); [congruence | reflexivity]).
  rewrite resolve_below; try assumption; try discriminate.
  - unfold startsWith. now rewrite prefix_app.
  - rewrite Hpr, resolved_pieces_of_path.
    + now destruct (resolved_pieces cwd [root]).
    + apply Forall_app. split; [apply resolved_pieces_regular|].
      now constructor.
Qed.

End SandboxMore.

Import SandboxMore.

(** X1.  Whatever the candidate, a path [resolveSafe] returns is in normal
    form and consists of the components of the workspace root followed by
    zero or more ordinary names: no empty component, no ["."], no [".."]. *)
Theorem resolveSafe_stays_below_root (cwd root rel p : string) :
  isAbsolute cwd = true ->
  resolveSafe cwd root rel = Normal p ->
  canonical cwd p
  /\ exists rest,
       forallb regular rest = true
       /\ p = String slash (join (resolved_pieces cwd [root] ++ rest)).
Proof.
  intros Hcwd Hres.
  destruct (resolveSafe_pieces cwd root rel p Hcwd Hres)
    as (Hcan & rest & Hreg & Hpieces).
  split; [exact Hcan|]. exists rest. split; [exact Hreg|].
  rewrite <- Hpieces, <- resolve_pieces by assumption.
  symmetry. exact Hcan.
Qed.

Lemma resolveSafe_stays_below_root_witness :
  resolveSafe "/srv/app" "/home/dev/WorkSpace" "//src/../docs/./readme.md"
  = Normal "/home/dev/WorkSpace/docs/readme.md"
  /\ canonical "/srv/app" "/home/dev/WorkSpace/docs/readme.md".
Proof.
  split; [vm_compute; reflexivity|].
  apply (resolveSafe_stays_below_root "/srv/app" "/home/dev/WorkSpace"
           "//src/../docs/./readme.md" "/home/dev/WorkSpace/docs/readme.md");
    vm_compute; reflexivity.
Defined.

(** X2.  Unless the workspace root is the file system root, every plain
    relative path (ordinary names joined by slashes) is accepted by
    [resolveSafe] and resolves to the root, a slash and that path. *)
Theorem resolveSafe_accepts_plain_paths
    (cwd root x : string) (more : list string) :
  isAbsolute cwd = true ->
  (workspace_root cwd root =? "/") = false ->
  forallb regular (x :: more) = true ->
  resolveSafe cwd root (join (x :: more))
  = Normal (workspace_root cwd root ++ String slash (join (x :: more))).
Proof.
  intros Hcwd Hroot Hreg.
  apply resolveSafe_relative; try assumption.
  - now apply root_not_slash_pieces.
  - discriminate.
  - now apply regular_forallb.
Qed.

Lemma resolveSafe_accepts_plain_paths_witness :
  resolveSafe "/srv/app" "/home/dev/WorkSpace" (join ["src"; "lib"; "main.js"])
  = Normal ("/home/dev/WorkSpace" ++ String slash (join ["src"; "lib"; "main.js"])).
Proof.
  apply (resolveSafe_accepts_plain_paths "/srv/app" "/home/dev/WorkSpace"
           "src" ["lib"; "main.js"]); reflexivity.
Defined.

(** X3.  The empty candidate, ["."] and any run of slashes all resolve to
    the workspace root itself, and [toRel] shows the root as ["."]. *)
Theorem root_candidates (cwd root : string) (n : nat) :
  isAbsolute cwd = true ->
  resolveSafe cwd root (slashes n) = Normal (workspace_root cwd root)
  /\ resolveSafe cwd root "." = Normal (workspace_root cwd root)
  /\ toRel cwd root (workspace_root cwd root) = ".".
Proof.
  intros Hcwd. split; [apply resolveSafe_slashes|].
  split; [apply resolveSafe_dot | now apply toRel_root].
Qed.

Lemma root_candidates_witness :
  resolveSafe "/srv/app" "ws" (slashes 3) = Normal "/srv/app/ws"
  /\ resolveSafe "/srv/app" "ws" "." = Normal "/srv/app/ws"
  /\ toRel "/srv/app" "ws" "/srv/app/ws" = ".".
Proof.
  apply (root_candidates "/srv/app" "ws" 3). reflexivity.
Defined.

(** X4.  What [toRel] shows of a path [resolveSafe] returned is ["."] for
    the root and otherwise ordinary names joined by slashes (never
    absolute, never with [".."]); the root, a slash and that text spell
    the path again. *)
Theorem toRel_of_result (cwd root rel p : string) :
  isAbsolute cwd = true ->
  resolveSafe cwd root rel = Normal p ->
  (p = workspace_root cwd root /\ toRel cwd root p = ".")
  \/ (forallb regular (split (toRel cwd root p)) = true
      /\ p = workspace_root cwd root ++ String slash (toRel cwd root p)).
Proof.
  intros Hcwd Hres.
  destruct (toRel_result_shape cwd root rel p Hcwd Hres)
    as [Hroot | (rest & Hne & Hreg & Hrel)]; [now left | right].
  destruct (resolveSafe_pieces cwd root rel p Hcwd Hres) as [Hcan _].
  pose proof (resolveSafe_contained _ _ _ _ Hres) as Hc.
  rewrite Hrel. split.
  - rewrite split_join by (assumption || now apply regular_no_slash).
    now apply regular_forallb.
  - unfold contained in Hc. apply orb_prop in Hc as [Heq | Hin].
    + exfalso. apply String.eqb_eq in Heq. subst p.
      rewrite (toRel_root cwd root Hcwd) in Hrel.
      destruct rest as [|x rest]; [congruence|].
      inversion Hreg as [|? ? Hx Hrest]; subst.
      destruct rest as [|y rest].
      * simpl in Hrel. subst x. discriminate.
      * assert (Hs : has_slash (join (x :: y :: rest)) = true).
        { change (join (x :: y :: rest))
            with (x ++ String slash (join (y :: rest))).
          generalize (join (y :: rest)). clear. intros t.
          induction x as [|c x IH]; simpl;
            [reflexivity | now rewrite IH, orb_true_r]. }
        rewrite <- Hrel in Hs. discriminate.
    + destruct (toRel_inside cwd root p Hcwd Hcan Hin)
        as (rest' & Hne' & Hreg' & Hpieces & Hrel').
      assert (rest' = rest).
      { rewrite Hrel in Hrel'.
        rewrite <- (split_join rest), <- (split_join rest'), Hrel';
          try assumption; try (now apply regular_no_slash). reflexivity. }
      subst rest'.
      destruct (workspace_root_pieces cwd root Hcwd) as [Hwr _].
      rewrite Hwr.
      change (String slash (join (resolved_pieces cwd [root])) ++ String slash (join rest))
        with (String slash (join (resolved_pieces cwd [root]) ++ String slash (join rest))).
      rewrite <- join_app, <- Hpieces, <- resolve_pieces; try assumption.
      * symmetry. exact Hcan.
      * now apply (inside_root_pieces cwd root p).
Qed.

Lemma toRel_of_result_witness :
  resolveSafe "/srv/app" "/home/dev/WorkSpace" "/docs/../src/main.js"
  = Normal "/home/dev/WorkSpace/src/main.js"
  /\ toRel "/srv/app" "/home/dev/WorkSpace" "/home/dev/WorkSpace/src/main.js"
     = "src/main.js".
Proof.
  split; [vm_compute; reflexivity|].
  destruct (toRel_of_result "/srv/app" "/home/dev/WorkSpace"
              "/docs/../src/main.js" "/home/dev/WorkSpace/src/main.js"
              eq_refl eq_refl) as [[H _] | _].
  - discriminate H.
  - vm_compute; reflexivity.
Defined.


(** X5.  A project is named by the last component of what was sent: the
    base name has no slash, and, when it is not empty, the whole name and
    its base name resolve every path alike. *)
Theorem project_is_its_base_name (cwd root project rel : string) :
  negb (basename project =? "") = true ->
  has_slash (basename project) = false
  /\ resolveWorkspacePath cwd root project rel
     = resolveWorkspacePath cwd root (basename project) rel.
Proof.
  intros Hb. split; [apply basename_no_slash|].
  unfold resolveWorkspacePath. rewrite basename_idempotent.
  destruct project as [|c project]; [discriminate|].
  destruct (basename (String c project)); [discriminate | reflexivity].
Qed.

Lemma project_is_its_base_name_witness :
  resolveWorkspacePath "/srv/app" "/srv/app/workspaces" "../../etc/demo/" "a.txt"
  = resolveWorkspacePath "/srv/app" "/srv/app/workspaces" "demo" "a.txt".
Proof.
  apply (project_is_its_base_name "/srv/app" "/srv/app/workspaces"
           "../../etc/demo/" "a.txt").
  reflexivity.
Defined.

(** X6.  When the base name of the project is an ordinary name, the
    project root is the child of the workspace root of that name, the
    candidates [""] and ["."] resolve to it, and every plain relative path
    resolves to the project root, a slash and that path. *)
Theorem resolveWorkspacePath_plain_paths
    (cwd root project : string) (rest : list string) :
  isAbsolute cwd = true ->
  regular (basename project) = true ->
  forallb regular rest = true ->
  let projectRoot := resolve cwd [root; basename project] in
  projectRoot
  = String slash (join (resolved_pieces cwd [root] ++ [basename project]))
  /\ resolveWorkspacePath cwd root project "." = Normal (projectRoot, projectRoot)
  /\ resolveWorkspacePath cwd root project (join rest)
     = Normal (projectRoot,
               match rest with
               | [] => projectRoot
               | _ => projectRoot ++ String slash (join rest)
               end).
Proof.
  intros Hcwd Hb Hreg projectRoot.
  exact (resolveWorkspacePath_plain cwd root project rest Hcwd Hb Hreg).
Qed.

Lemma resolveWorkspacePath_plain_paths_witness :
  resolveWorkspacePath "/srv/app" "/srv/app/workspaces" "demo"
    (join ["src"; "main.js"])
  = Normal ("/srv/app/workspaces/demo", "/srv/app/workspaces/demo/src/main.js").
Proof.
  apply (resolveWorkspacePath_plain_paths "/srv/app" "/srv/app/workspaces"
           "demo" ["src"; "main.js"] eq_refl eq_refl eq_refl).
Defined.

(** * More about the terminal session *)

Module TerminalMore.

Section Runs.

Variable cwd : string.
Variable WORKSPACE_ROOT : string.
Variable existsSync : string -> bool.
Variable JSON_parse : string -> option value.
Variable lib : library.
Variable platform : string.
Variable SHELL : string.

Local Abbreviation stepE :=
  (step cwd WORKSPACE_ROOT existsSync JSON_parse lib platform SHELL).
Local Abbreviation runE :=
  (run cwd WORKSPACE_ROOT existsSync JSON_parse lib platform SHELL).

(** What a message can do to the world: nothing, one write of the message,
    or a new size. *)
Lemma on_message_outcome (rev : revision) (msg : string) (w : world) :
  exists w',
    on_message JSON_parse lib rev msg w = (Normal tt, w')
    /\ (w' = w \/ w' = with_written w msg \/ exists c r, w' = with_size w c r).
Proof.
  destruct rev; unfold on_message.
  - rewrite on_message_first_cases.
    destruct (JSON_parse msg) as [v|]; [|eauto].
    destruct v; eauto;
      destruct (resize_request JSON_parse msg) as [[c r]|]; eauto;
      destruct (resize_throws lib c r); eauto 7.
  - destruct (resize_request JSON_parse msg) as [[c r]|] eqn:E.
    + rewrite (on_message_later_resize JSON_parse lib msg c r w E).
      destruct (resize_throws lib _ _); eauto 7.
    + rewrite (on_message_later_forwards JSON_parse lib msg w E). eauto.
  - destruct (resize_request JSON_parse msg) as [[c r]|] eqn:E.
    + rewrite (on_message_later_resize JSON_parse lib msg c r w E).
      destruct (resize_throws lib _ _); eauto 7.
    + rewrite (on_message_later_forwards JSON_parse lib msg w E). eauto.
Qed.

(** One event of a session on an open connection: the listener returns,
    and the frames sent grow by the chunk of that event, if it has one. *)
Lemma step_open_sent (rev : revision) (ev : event) (w : world) :
  during_session ev = true -> listens_data w = true -> ws_state w = OPEN ->
  exists w',
    stepE rev ev w = (Normal tt, w')
    /\ ws_sent w' = (ws_sent w ++ outputs [ev])%list
    /\ listens_data w' = true /\ ws_state w' = OPEN.
Proof.
  intros Hev Hl Ho. destruct ev; try discriminate; cbn [step].
  - rewrite Hl, (on_data_open lib rev chunk w Ho).
    eexists. split; [reflexivity|]. now repeat split.
  - destruct (listens_message w).
    + destruct (on_message_outcome rev msg w) as (w' & -> & [->|[->|(c & r & ->)]]);
        eexists; (split; [reflexivity|]); simpl; rewrite ?app_nil_r; now repeat split.
    + eexists. split; [reflexivity|]. simpl. rewrite app_nil_r. now repeat split.
  - eexists. split; [reflexivity|]. simpl. rewrite app_nil_r. now repeat split.
Qed.

Lemma run_open_sent (rev : revision) (evs : list event) (w : world) :
  forallb during_session evs = true ->
  listens_data w = true -> ws_state w = OPEN ->
  exists w',
    runE rev evs w = (Normal tt, w')
    /\ ws_sent w' = (ws_sent w ++ outputs evs)%list.
Proof.
  revert w. induction evs as [|ev evs IH]; intros w Hevs Hl Ho.
  - exists w. split; [reflexivity | now rewrite app_nil_r].
  - simpl in Hevs. apply andb_prop in Hevs as [Hev Hevs].
    destruct (step_open_sent rev ev w Hev Hl Ho) as (w1 & Hstep & Hsent & Hl1 & Ho1).
    destruct (IH w1 Hevs Hl1 Ho1) as (w2 & Hrun & Hsent2).
    exists w2. cbn [run]. unfold bind. rewrite Hstep. split; [exact Hrun|].
    rewrite Hsent2, Hsent. change (ev :: evs) with ([ev] ++ evs)%list.
    unfold outputs. now rewrite flat_map_app, app_assoc.
Qed.

(** One event of a session in a guarded revision, when it is no resize
    request: the text written grows by the message of that event, if it
    has one. *)
Lemma step_plain_written (rev : revision) (ev : event) (w : world) :
  guarded rev = true -> during_session ev = true ->
  plain JSON_parse ev = true -> listens_message w = true ->
  exists w',
    stepE rev ev w = (Normal tt, w')
    /\ pty_written w' = (pty_written w ++ inputs [ev])%list
    /\ pty_size w' = pty_size w
    /\ listens_message w' = true.
Proof.
  intros Hrev Hev Hplain Hl. destruct ev; try discriminate; cbn [step].
  - destruct (listens_data w).
    + pose proof (on_data_same lib rev chunk w) as Hsame.
      destruct rev; try discriminate; unfold on_data, try_catch, ws_send, ret;
        destruct (ws_state w); try destruct (send_unopened_throws lib);
        eexists; (split; [reflexivity|]); simpl; rewrite ?app_nil_r;
        now repeat split.
    + eexists. split; [reflexivity|]. simpl. rewrite app_nil_r. now repeat split.
  - rewrite Hl. unfold plain, resize_of in Hplain.
    destruct (resize_request JSON_parse msg) eqn:E; [discriminate|].
    destruct rev; try discriminate; unfold on_message;
      rewrite (on_message_later_forwards JSON_parse lib msg w E);
      eexists; (split; [reflexivity|]); now repeat split.
  - eexists. split; [reflexivity|]. simpl. rewrite app_nil_r. now repeat split.
Qed.

Lemma run_plain_written (rev : revision) (evs : list event) (w : world) :
  guarded rev = true ->
  forallb during_session evs = true ->
  forallb (plain JSON_parse) evs = true ->
  listens_message w = true ->
  exists w',
    runE rev evs w = (Normal tt, w')
    /\ pty_written w' = (pty_written w ++ inputs evs)%list
    /\ pty_size w' = pty_size w.
Proof.
  intros Hrev. revert w.
  induction evs as [|ev evs IH]; intros w Hevs Hplain Hl.
  - exists w. split; [reflexivity|]. split; [now rewrite app_nil_r | reflexivity].
  - simpl in Hevs, Hplain.
    apply andb_prop in Hevs as [Hev Hevs].
    apply andb_prop in Hplain as [Hp Hplain].
    destruct (step_plain_written rev ev w Hrev Hev Hp Hl)
      as (w1 & Hstep & Hw & Hs & Hl1).
    destruct (IH w1 Hevs Hplain Hl1) as (w2 & Hrun & Hw2 & Hs2).
    exists w2. cbn [run]. unfold bind. rewrite Hstep. split; [exact Hrun|].
    split; [|congruence].
    rewrite Hw2, Hw. change (ev :: evs) with ([ev] ++ evs)%list.
    unfold inputs. now rewrite flat_map_app, app_assoc.
Qed.

(** Without listeners an event can only mark the connection closed or the
    shell gone. *)
Lemma step_no_listeners (rev : revision) (ev : event) (w : world) :
  no_listeners w = true -> is_connection ev = false ->
  exists w',
    stepE rev ev w = (Normal tt, w')
    /\ (w' = w \/ w' = mark_closed w \/ w' = mark_exited w).
Proof.
  unfold no_listeners. intros Hn Hev.
  apply negb_true_iff, orb_false_elim in Hn as [Hn Hc].
  apply orb_false_elim in Hn as [Hd Hm].
  destruct ev; try discriminate; cbn [step]; rewrite ?Hd, ?Hm, ?Hc; eauto.
  destruct (ws_state w); eauto.
Qed.

Lemma run_no_listeners (rev : revision) (evs : list event) (w : world) :
  no_listeners w = true ->
  forallb (fun ev => negb (is_connection ev)) evs = true ->
  exists w',
    runE rev evs w = (Normal tt, w')
    /\ ws_sent w' = ws_sent w /\ pty_spawned w' = pty_spawned w
    /\ pty_written w' = pty_written w /\ pty_kills w' = pty_kills w
    /\ pty_size w' = pty_size w /\ no_listeners w' = true.
Proof.
  revert w. induction evs as [|ev evs IH]; intros w Hn Hevs.
  - exists w. now repeat split.
  - simpl in Hevs. apply andb_prop in Hevs as [Hev Hevs].
    apply negb_true_iff in Hev.
    destruct (step_no_listeners rev ev w Hn Hev) as (w1 & Hstep & Hw1).
    assert (Hn1 : no_listeners w1 = true)
      by (destruct Hw1 as [->|[->| ->]]; assumption).
    destruct (IH w1 Hn1 Hevs) as (w2 & Hrun & H1 & H2 & H3 & H4 & H5 & H6).
    exists w2. cbn [run]. unfold bind. rewrite Hstep. split; [exact Hrun|].
    destruct Hw1 as [->|[->| ->]]; now repeat split.
Qed.

Lemma step_accounted (rev : revision) (ev : event) (w : world) :
  is_connection ev = false -> accounted w ->
  accounted (snd (stepE rev ev w)).
Proof.
  intros Hev [Hs Hk].
  destruct (during_session ev) eqn:Hd.
  - destruct (step_during_session cwd WORKSPACE_ROOT existsSync JSON_parse lib
                platform SHELL rev ev w Hd) as (H1 & H2 & H3 & _ & _ & H6).
    unfold accounted, is_closed in *. rewrite H1, H2, H3, H6. now split.
  - destruct ev; try discriminate. cbn [step].
    unfold accounted, is_closed in *.
    destruct (ws_state w) eqn:E.
    + destruct (listens_close w) eqn:El.
      * rewrite on_close_kills. simpl. rewrite El. simpl in Hk.
        split; [assumption | now rewrite Hk].
      * simpl. rewrite El. now split.
    + destruct (listens_close w) eqn:El.
      * rewrite on_close_kills. simpl. rewrite El. simpl in Hk.
        split; [assumption | now rewrite Hk].
      * simpl. rewrite El. now split.
    + simpl. rewrite E. now split.
Qed.

Lemma run_accounted (rev : revision) (evs : list event) (w : world) :
  forallb (fun ev => negb (is_connection ev)) evs = true -> accounted w ->
  accounted (snd (runE rev evs w)).
Proof.
  revert w. induction evs as [|ev evs IH]; intros w Hevs Hw; [exact Hw|].
  simpl in Hevs. apply andb_prop in Hevs as [Hev Hevs].
  apply negb_true_iff in Hev.
  pose proof (step_accounted rev ev w Hev Hw) as H1.
  cbn [run]. unfold bind.
  destruct (stepE rev ev w) as [[[]|e] w1]; simpl in *; [now apply IH | exact H1].
Qed.

(** The three ways a new connection can end. *)
Lemma connection_outcome (rev : revision) (req : request) :
  exists c w,
    stepE rev (Connection req) fresh = (c, w)
    /\ ((c = Throw LibraryError /\ w = fresh)
        \/ (c = Normal tt /\ exists frame, w = refused frame)
        \/ (c = Normal tt /\ exists dir, w = opened platform SHELL dir)).
Proof.
  cbn [step]. destruct rev; unfold on_connection;
    rewrite ?on_connection_project_cases, ?on_connection_workspace_cases;
    cbv zeta; case_split; eauto 10.
Qed.

End Runs.

End TerminalMore.

Import TerminalMore.

Section SessionExtras.

Variable cwd : string.
Variable WORKSPACE_ROOT : string.
Variable existsSync : string -> bool.
Variable JSON_parse : string -> option value.
Variable lib : library.
Variable platform : string.
Variable SHELL : string.

Local Abbreviation stepE :=
  (step cwd WORKSPACE_ROOT existsSync JSON_parse lib platform SHELL).
Local Abbreviation runE :=
  (run cwd WORKSPACE_ROOT existsSync JSON_parse lib platform SHELL).

(** X7.  On an open connection with the data listener registered, in every
    revision and whatever messages come in between, the frames sent are
    the chunks the shell wrote, one frame each, unchanged and in order. *)
Theorem frames_are_the_output
    (rev : revision) (evs : list event) (w : world) :
  forallb during_session evs = true ->
  listens_data w = true ->
  is_open w = true ->
  ws_sent (snd (runE rev evs w)) = (ws_sent w ++ outputs evs)%list.
Proof.
  intros Hevs Hl Ho.
  assert (Hopen : ws_state w = OPEN)
    by (unfold is_open in Ho; now destruct (ws_state w)).
  destruct (run_open_sent cwd WORKSPACE_ROOT existsSync JSON_parse lib
              platform SHELL rev evs w Hevs Hl Hopen) as (w' & -> & Hsent).
  exact Hsent.
Qed.

(** X8.  In the two part_000 revisions, as long as no message is a resize
    request, the texts written to the shell are the inbound messages, one
    write each, unchanged and in order, and the size of the terminal stays
    as it was. *)
Theorem writes_are_the_input
    (rev : revision) (evs : list event) (w : world) :
  guarded rev = true ->
  forallb during_session evs = true ->
  forallb (plain JSON_parse) evs = true ->
  listens_message w = true ->
  pty_written (snd (runE rev evs w)) = (pty_written w ++ inputs evs)%list
  /\ pty_size (snd (runE rev evs w)) = pty_size w.
Proof.
  intros Hrev Hevs Hplain Hl.
  destruct (run_plain_written cwd WORKSPACE_ROOT existsSync JSON_parse lib
              platform SHELL rev evs w Hrev Hevs Hplain Hl)
    as (w' & -> & Hw & Hs).
  now split.
Qed.

(** X9.  A connection refused for a missing directory stays refused:
    whatever happens on it later, the one frame is all that was sent, no
    shell is ever spawned, written to or killed, and no listener is ever
    registered. *)
Theorem refused_connection_stays_inert
    (rev : revision) (req : request) (dir : string) (evs : list event) :
  requested_dir cwd WORKSPACE_ROOT rev req = Normal dir ->
  existsSync dir = false ->
  forallb (fun ev => negb (is_connection ev)) evs = true ->
  let w := snd (runE rev (Connection req :: evs) fresh) in
  ws_sent w = [diagnostic rev req]
  /\ pty_spawned w = [] /\ pty_written w = [] /\ pty_kills w = 0
  /\ pty_size w = None /\ no_listeners w = true.
Proof.
  intros Hdir Hmissing Hevs.
  assert (Hstep : stepE rev (Connection req) fresh
                  = (Normal tt, refused (diagnostic rev req))).
  { cbn [step]. destruct rev; unfold on_connection, requested_dir, diagnostic in *.
    - injection Hdir as <-. rewrite on_connection_project_cases.
      cbv zeta. now rewrite Hmissing.
    - rewrite on_connection_workspace_cases. cbv zeta.
      now rewrite Hdir, Hmissing.
    - injection Hdir as <-. rewrite on_connection_project_cases.
      cbv zeta. now rewrite Hmissing. }
  cbn [run]. unfold bind. rewrite Hstep.
  destruct (run_no_listeners cwd WORKSPACE_ROOT existsSync JSON_parse lib
              platform SHELL rev evs (refused (diagnostic rev req))
              eq_refl Hevs) as (w' & -> & H1 & H2 & H3 & H4 & H5 & H6).
  cbv zeta. cbn [snd]. now repeat split.
Qed.

(** X10.  On one connection a shell is spawned at most once, and it is
    killed once if a session was opened and the connection has closed, and
    not at all otherwise: never before the close, never twice. *)
Theorem one_shell_one_kill
    (rev : revision) (req : request) (evs : list event) :
  forallb (fun ev => negb (is_connection ev)) evs = true ->
  let w := snd (runE rev (Connection req :: evs) fresh) in
  Nat.leb (List.length (pty_spawned w)) 1 = true
  /\ pty_kills w = if listens_close w && is_closed w then 1 else 0.
Proof.
  intros Hevs. cbv zeta. cbn [run]. unfold bind.
  destruct (connection_outcome cwd WORKSPACE_ROOT existsSync JSON_parse lib
              platform SHELL rev req)
    as (c & w0 & -> & [[-> ->] | [[-> [frame ->]] | [-> [dir ->]]]]).
  - now split.
  - apply (run_accounted cwd WORKSPACE_ROOT existsSync JSON_parse lib
             platform SHELL rev evs _ Hevs). now split.
  - apply (run_accounted cwd WORKSPACE_ROOT existsSync JSON_parse lib
             platform SHELL rev evs _ Hevs). now split.
Qed.

(** X11.  In the single-workspace revision a path that [resolveSafe]
    throws out is answered with the one frame ['Server error'] and the
    connection is closed; nothing is spawned and no listener registered. *)
Theorem outside_sandbox_is_server_error (req : request) (e : exn) :
  requested_dir cwd WORKSPACE_ROOT SingleWorkspace req = Throw e ->
  stepE SingleWorkspace (Connection req) fresh
  = (Normal tt, refused "Server error").
Proof.
  unfold requested_dir. intros H. cbn [step]. unfold on_connection.
  rewrite on_connection_workspace_cases. cbv zeta. now rewrite H.
Qed.

(** X12.  When the directory is there and [pty.spawn] raises, the
    single-workspace revision answers ['Server error'] and closes; the two
    project revisions let the error out of the listener and leave the
    connection open with nothing sent.  No listener is registered either
    way. *)
Theorem spawn_failure (rev : revision) (req : request) (dir : string) :
  requested_dir cwd WORKSPACE_ROOT rev req = Normal dir ->
  existsSync dir = true ->
  spawn_throws lib = true ->
  stepE rev (Connection req) fresh
  = match rev with
    | SingleWorkspace => (Normal tt, refused "Server error")
    | FirstRevision | ProjectScoped => (Throw LibraryError, fresh)
    end.
Proof.
  intros Hdir Hthere Hspawn. cbn [step].
  destruct rev; unfold on_connection, requested_dir in *.
  - injection Hdir as <-. rewrite on_connection_project_cases.
    cbv zeta. now rewrite Hthere, Hspawn.
  - rewrite on_connection_workspace_cases. cbv zeta.
    now rewrite Hdir, Hthere, Hspawn.
  - injection Hdir as <-. rewrite on_connection_project_cases.
    cbv zeta. now rewrite Hthere, Hspawn.
Qed.

(** X13.  In the single-workspace revision every shell is spawned in a
    directory that is the workspace root or lies below it, and that was on
    disk when the connection came. *)
Theorem shell_starts_inside_workspace (req : request) :
  forallb
    (fun opts =>
       contained (workspace_root cwd WORKSPACE_ROOT) (spawn_cwd opts)
       && existsSync (spawn_cwd opts))
    (pty_spawned (snd (stepE SingleWorkspace (Connection req) fresh)))
  = true.
Proof.
  cbn [step]. unfold on_connection.
  rewrite on_connection_workspace_cases. cbv zeta.
  destruct (resolveSafe _ _ _) as [dir|e] eqn:Hres; [|reflexivity].
  destruct (existsSync dir) eqn:Hthere; [|reflexivity].
  destruct (spawn_throws lib); [reflexivity|].
  cbn. rewrite Hthere, (resolveSafe_contained _ _ _ _ Hres). reflexivity.
Qed.

End SessionExtras.

(** * The file APIs *)

Module FileApiFacts.
Import NodeDirname.

Lemma drop_trailing_empty_last (pieces : list string) (x : string) :
  x <> EmptyString ->
  drop_trailing_empty (pieces ++ [x]) = (pieces ++ [x])%list.
Proof.
  intros Hx. induction pieces as [|p pieces IH]; simpl.
  - destruct (String.eqb_spec x ""); [congruence | reflexivity].
  - rewrite IH. now destruct pieces.
Qed.

(** The directory of a resolved path is the path without its last
    piece. *)
Lemma dirname_resolved (Q : list string) (x : string) :
  Forall (fun q => regular q = true) Q -> regular x = true ->
  dirname (String slash (join (Q ++ [x])))
  = match Q with [] => "/" | _ => String slash (join Q) end.
Proof.
  intros HQ Hx. unfold dirname.
  assert (Hall : Forall (fun q => regular q = true) (Q ++ [x]))
    by (apply Forall_app; split; [assumption | now constructor]).
  change (split (String slash (join (Q ++ [x]))))
    with (EmptyString :: split (join (Q ++ [x]))).
  rewrite split_join by (try (now destruct Q); now apply regular_no_slash).
  change (EmptyString :: Q ++ [x])%list with ((EmptyString :: Q) ++ [x])%list.
  rewrite drop_trailing_empty_last by now apply regular_not_empty.
  rewrite removelast_last.
  destruct Q as [|q Q]; [reflexivity|].
  destruct Q as [|q' Q]; [|reflexivity].
  inversion HQ as [|? ? Hq _]; subst.
  simpl. destruct (String.eqb_spec q ""); [subst; discriminate | reflexivity].
Qed.

(** The directory of a path strictly inside the root is the root or lies
    below it. *)
Lemma dirname_inside (cwd root p : string) :
  isAbsolute cwd = true -> canonical cwd p ->
  strictly_inside (workspace_root cwd root) p = true ->
  contained (workspace_root cwd root) (dirname p) = true.
Proof.
  intros Hcwd Hcan Hin.
  destruct (toRel_inside cwd root p Hcwd Hcan Hin)
    as (rest & Hne & Hreg & Hpieces & _).
  pose proof (inside_root_pieces cwd root p Hcwd Hcan Hin) as HR.
  destruct (workspace_root_pieces cwd root Hcwd) as [Hwr _].
  assert (Hp : p = String slash (join (resolved_pieces cwd [p])))
    by (rewrite <- resolve_pieces by assumption; now rewrite Hcan).
  destruct (exists_last Hne) as (rest' & x & ->).
  apply Forall_app in Hreg as [Hrest' Hx]. inversion Hx as [|? ? Hx' _]; subst.
  rewrite Hp, Hpieces, app_assoc, dirname_resolved;
    [| apply Forall_app; split; [apply resolved_pieces_regular | assumption]
     | assumption].
  unfold contained. rewrite Hwr.
  destruct rest' as [|y rest'].
  - rewrite app_nil_r.
    destruct (resolved_pieces cwd [root]); [congruence|].
    now rewrite String.eqb_refl.
  - rewrite join_app by (assumption || discriminate).
    destruct (resolved_pieces cwd [root] ++ y :: rest')%list eqn:E;
      [now destruct (resolved_pieces cwd [root])|].
    unfold startsWith, sep.
    change (String slash (join (resolved_pieces cwd [root])
                          ++ String slash (join (y :: rest'))))
      with (String slash (join (resolved_pieces cwd [root]))
            ++ String slash (join (y :: rest'))).
    now rewrite prefix_app_assoc, orb_true_r.
Qed.

Lemma toRel_not_empty (cwd root p : string) :
  toRel cwd root p <> EmptyString.
Proof. unfold toRel. now destruct (relative cwd root p). Qed.

Ltac unfold_handlers :=
  unfold get_files, get_file, post_file, post_mkdir, post_delete, get_root,
    io_catch, io_bind, io_lift, io_ret, io_call, bad_request,
    existsSync_, readdir_, readFile_, mkdir_, writeFile_, lstat_, rm_, unlink_.

(** Case analysis on what the file system answers. *)
Ltac answer :=
  match goal with
  | |- context [disk_exists ?d ?p] => destruct (disk_exists d p)
  | |- context [disk_readdir ?d ?p] => destruct (disk_readdir d p)
  | |- context [disk_readFile ?d ?p] => destruct (disk_readFile d p)
  | |- context [disk_mkdir ?d ?p] => destruct (disk_mkdir d p)
  | |- context [disk_writeFile ?d ?p ?c] => destruct (disk_writeFile d p c)
  | |- context [disk_lstat ?d ?p] => destruct (disk_lstat d p) as [?|[|]]
  | |- context [disk_rm ?d ?p] => destruct (disk_rm d p)
  | |- context [disk_unlink ?d ?p] => destruct (disk_unlink d p)
  end.

Section Handlers.

Variable cwd : string.
Variable WORKSPACE_ROOT : string.
Variable disk : filesystem.

(** With its path resolved to [abs], a handler calls [fs] on [abs], and
    [POST /api/file] on the directory of [abs] before that; nothing
    else. *)
Lemma handle_calls (req : file_request) (abs : string) :
  target cwd WORKSPACE_ROOT req = Normal abs ->
  Forall (fun call => fs_path call = abs
                      \/ call = fs_mkdir (dirname abs))
    (snd (handle cwd WORKSPACE_ROOT disk req [])).
Proof.
  unfold target, candidate. intros Ht.
  destruct req; cbn [handle]; unfold_handlers;
    try (destruct (text_or_empty path) eqn:Hp; [discriminate|]);
    try rewrite Ht; simpl; repeat (answer; simpl);
    repeat (first [apply Forall_nil | apply Forall_cons]);
    first [left; reflexivity | right; reflexivity].
Qed.

(** A request whose path is missing or thrown out is answered 400 with
    the message of the error, before any call into [fs]. *)
Lemma handle_refused (req : file_request) (e : exn) :
  target cwd WORKSPACE_ROOT req = Throw e ->
  handle cwd WORKSPACE_ROOT disk req []
  = (Normal (mkResponse 400 (error_body (message_of e))), []).
Proof.
  unfold target, candidate. intros Ht.
  destruct req; cbn [handle]; unfold_handlers;
    try (destruct (text_or_empty path) eqn:Hp;
         [injection Ht as <-; reflexivity|]);
    try rewrite Ht; try reflexivity; discriminate.
Qed.

End Handlers.

End FileApiFacts.

Import FileApiFacts.

(** X14.  No handler of the single-workspace file API hands [fs] a path
    outside the workspace root: every call is on the root or below it.
    The one exception is [POST /api/file] for the root itself, which asks
    [mkdir] for the directory that holds the root. *)
Theorem file_api_stays_in_workspace
    (cwd root : string) (disk : filesystem) (req : file_request) :
  isAbsolute cwd = true ->
  Forall (fun call =>
            contained (workspace_root cwd root) (fs_path call) = true
            \/ call = fs_mkdir (NodeDirname.dirname (workspace_root cwd root)))
    (snd (handle cwd root disk req [])).
Proof.
  intros Hcwd.
  destruct (target cwd root req) as [abs|e] eqn:Ht.
  - pose proof (handle_calls cwd root disk req abs Ht) as Hcalls.
    destruct req; try (cbn; constructor);
      (assert (Hres : exists rel, resolveSafe cwd root rel = Normal abs)
         by (unfold target, candidate in Ht;
             try destruct (text_or_empty path); try discriminate; eauto);
       destruct Hres as [rel Hres];
       pose proof (resolveSafe_contained _ _ _ _ Hres) as Hc;
       destruct (resolveSafe_pieces cwd root rel abs Hcwd Hres) as [Hcan _];
       eapply Forall_impl; [|exact Hcalls];
       intros call [Hpath | ->];
       [ left; now rewrite Hpath
       | pose proof Hc as Hc'; unfold contained in Hc';
         apply orb_prop in Hc' as [Heq | Hin];
         [ right; apply String.eqb_eq in Heq; now subst abs
         | left; now apply dirname_inside ] ]).
  - now rewrite (handle_refused cwd root disk req e Ht).
Qed.

Lemma file_api_stays_in_workspace_witness :
  Forall (fun call =>
            contained "/home/dev/WorkSpace" (fs_path call) = true
            \/ call = fs_mkdir (NodeDirname.dirname "/home/dev/WorkSpace"))
    (snd (ExampleFiles.handle
            (PostFile (Some "/src/../lib/util/sum.js") (Some "export {}")) [])).
Proof.
  apply (file_api_stays_in_workspace "/srv/app" "/home/dev/WorkSpace"
           ExampleFiles.disk
           (PostFile (Some "/src/../lib/util/sum.js") (Some "export {}"))).
  reflexivity.
Defined.

(** X15.  A request of the single-workspace file API whose path is
    required and missing, or is thrown out by [resolveSafe], is answered
    with status 400 and the message of that error, and makes no call into
    [fs] at all. *)
Theorem refused_request_touches_nothing
    (cwd root : string) (disk : filesystem) (req : file_request) (e : exn) :
  target cwd root req = Throw e ->
  handle cwd root disk req []
  = (Normal (mkResponse 400 (error_body (message_of e))), [])
  /\ (e = Error "path required" \/ e = outside_workspace).
Proof.
  intros Ht. split; [now apply handle_refused|].
  unfold target, candidate in Ht.
  destruct req;
    try (destruct (text_or_empty path); [injection Ht as <-; now left|]);
    try discriminate;
    (rewrite resolveSafe_check in Ht; cbv zeta in Ht;
     destruct (contained _ _); [discriminate | injection Ht as <-; now right]).
Qed.

Lemma refused_request_touches_nothing_witness :
  ExampleFiles.handle (PostDelete (Some "../WorkSpace-old")) []
  = (Normal (mkResponse 400
               (error_body "Path outside workspace root is not allowed")), []).
Proof.
  apply (refused_request_touches_nothing "/srv/app" "/home/dev/WorkSpace"
           ExampleFiles.disk (PostDelete (Some "../WorkSpace-old"))
           outside_workspace).
  reflexivity.
Defined.

(** X16.  The path a listing or a file is reported under names the same
    place again: for an absolute working directory, asking with
    [toRel dir], where [dir] is what the first candidate resolved to,
    gives the same answer and the same calls. *)
Theorem reported_path_asks_again
    (cwd root : string) (disk : filesystem) (rel dir : string)
    (calls : list fs_call) :
  isAbsolute cwd = true ->
  resolveSafe cwd root rel = Normal dir ->
  get_files cwd root disk (Some (toRel cwd root dir)) calls
  = get_files cwd root disk (Some rel) calls
  /\ match rel with
     | EmptyString => True
     | _ => get_file cwd root disk (Some (toRel cwd root dir)) calls
            = get_file cwd root disk (Some rel) calls
     end.
Proof.
  intros Hcwd Hres.
  pose proof (resolveSafe_toRel_of_result cwd root rel dir Hcwd Hres) as Hback.
  pose proof (toRel_not_empty cwd root dir) as Hne.
  split.
  - unfold get_files, io_catch, io_bind, io_lift. cbn [param_or].
    replace (or_default (toRel cwd root dir) ".") with (toRel cwd root dir)
      by (now destruct (toRel cwd root dir)).
    rewrite Hback.
    assert (Hrel : resolveSafe cwd root (or_default rel ".") = Normal dir).
    { destruct rel; [|exact Hres]. cbn [or_default].
      destruct (resolveSafe_dot cwd root) as [H1 H2]. congruence. }
    now rewrite Hrel.
  - destruct rel as [|a rel']; [exact I|].
    unfold get_file, io_catch, io_bind, io_lift. cbn [text_or_empty].
    destruct (toRel cwd root dir) eqn:E; [congruence|].
    now rewrite Hback, Hres.
Qed.

Lemma reported_path_asks_again_witness :
  ExampleFiles.handle (GetFiles (Some "src")) []
  = ExampleFiles.handle (GetFiles (Some "//docs/../src/")) [].
Proof.
  apply (reported_path_asks_again "/srv/app" "/home/dev/WorkSpace"
           ExampleFiles.disk "//docs/../src/" "/home/dev/WorkSpace/src" []);
    reflexivity.
Defined.

Module ProjectApiFacts.

Ltac unfold_project_handlers :=
  unfold get_files_project, get_file_project, post_file_project,
    post_mkdir_project, post_delete_project, ensure_project_root,
    project_and_path_required,
    io_catch, io_bind, io_lift, io_ret, io_call, bad_request,
    existsSync_, readdir_, readFile_, mkdir_, writeFile_, lstat_, rm_, unlink_.

Section Handlers.

Variable cwd : string.
Variable WORKSPACE_ROOT : string.
Variable disk : filesystem.

(** What [resolveWorkspacePath] returns passed its guard. *)
Lemma resolveWorkspacePath_result (project rel projectRoot resolved : string) :
  resolveWorkspacePath cwd WORKSPACE_ROOT project rel
  = Normal (projectRoot, resolved) ->
  projectRoot = resolve cwd [WORKSPACE_ROOT; basename project]
  /\ resolved = resolve cwd [projectRoot; or_default rel "."]
  /\ startsWith resolved projectRoot = true.
Proof.
  unfold resolveWorkspacePath. destruct project; [discriminate|].
  cbv zeta. destruct (startsWith _ _) eqn:E; [|discriminate].
  simpl. intros [= <- <-]. now repeat split.
Qed.

(** With its path resolved, a handler calls [fs] on the resolved path, on
    the project root, and [POST /api/file] on the directory of the
    resolved path; nothing else. *)
Lemma handle_project_calls (action : project_action)
    (project path : option string) (projectRoot resolved : string) :
  project_target cwd WORKSPACE_ROOT action project path
  = Normal (projectRoot, resolved) ->
  Forall (fun call => fs_path call = resolved \/ fs_path call = projectRoot
                      \/ call = fs_mkdir (NodeDirname.dirname resolved))
    (snd (handle_project cwd WORKSPACE_ROOT disk action project path [])).
Proof.
  unfold project_target. intros Ht.
  destruct action; cbn [handle_project]; unfold_project_handlers;
    (destruct (text_or_empty project) eqn:Hproject; [discriminate|]);
    try (destruct (text_or_empty path) eqn:Hpath; [discriminate|]);
    rewrite Ht; simpl; repeat (answer; simpl);
    repeat (first [apply Forall_nil | apply Forall_cons]);
    first [left; reflexivity | right; left; reflexivity
          | right; right; reflexivity].
Qed.

(** A request that is refused is answered 400 with the message of the
    error, before any call into [fs]. *)
Lemma handle_project_refused (action : project_action)
    (project path : option string) (e : exn) :
  project_target cwd WORKSPACE_ROOT action project path = Throw e ->
  handle_project cwd WORKSPACE_ROOT disk action project path []
  = (Normal (mkResponse 400 (error_body (message_of e))), []).
Proof.
  unfold project_target. intros Ht.
  destruct action; cbn [handle_project]; unfold_project_handlers;
    (destruct (text_or_empty project) eqn:Hproject;
     [injection Ht as <-; reflexivity|]);
    try (destruct (text_or_empty path) eqn:Hpath;
         [injection Ht as <-; reflexivity|]);
    now rewrite Ht.
Qed.

End Handlers.

End ProjectApiFacts.

Import ProjectApiFacts.

(** X17.  A request of the project-scoped file API that lacks its project
    (or its path, where one is required), or whose path is thrown out by
    [resolveWorkspacePath], is answered with status 400 and the message of
    that error, and makes no call into [fs] at all. *)
Theorem refused_project_request_touches_nothing
    (cwd root : string) (disk : filesystem) (action : project_action)
    (project path : option string) (e : exn) :
  project_target cwd root action project path = Throw e ->
  handle_project cwd root disk action project path []
  = (Normal (mkResponse 400 (error_body (message_of e))), [])
  /\ (e = Error "project is required"
      \/ e = Error "project and path are required"
      \/ e = outside_project).
Proof.
  intros Ht. split; [now apply handle_project_refused|].
  unfold project_target in Ht.
  destruct action;
    (destruct (text_or_empty project) as [|c name] eqn:Hproject;
     [injection Ht as <-; auto|]);
    try (destruct (text_or_empty path) eqn:Hpath;
         [injection Ht as <-; auto|]);
    (unfold resolveWorkspacePath in Ht; cbv zeta in Ht;
     destruct (negb _); [injection Ht as <-; auto | discriminate]).
Qed.

Lemma refused_project_request_touches_nothing_witness :
  handle_project "/srv/app" "/srv/app/workspaces" ExampleFiles.disk
    (WriteFile (Some "x")) (Some "demo") (Some "/etc/passwd") []
  = (Normal (mkResponse 400 (error_body "Invalid path (outside project)")), []).
Proof.
  apply (refused_project_request_touches_nothing "/srv/app"
           "/srv/app/workspaces" ExampleFiles.disk (WriteFile (Some "x"))
           (Some "demo") (Some "/etc/passwd") outside_project).
  reflexivity.
Defined.

(** X18.  For a project with an ordinary base name and a plain relative
    path (ordinary names joined by slashes), every call a handler of the
    project-scoped file API makes into [fs] is on the project root or
    below it. *)
Theorem plain_project_request_stays_in_project
    (cwd root : string) (disk : filesystem) (action : project_action)
    (name x : string) (more : list string) :
  isAbsolute cwd = true ->
  regular (basename name) = true ->
  forallb regular (x :: more) = true ->
  Forall (fun call =>
            contained (resolve cwd [root; basename name]) (fs_path call) = true)
    (snd (handle_project cwd root disk action (Some name)
            (Some (join (x :: more))) [])).
Proof.
  intros Hcwd Hname Hreg.
  set (projectRoot := resolve cwd [root; basename name]).
  destruct (resolveWorkspacePath_plain cwd root name (x :: more) Hcwd Hname Hreg)
    as (Hpr & _ & Hres). fold projectRoot in Hpr, Hres.
  set (resolved := projectRoot ++ String slash (join (x :: more))) in *.
  pose proof (regular_basename_project name Hname) as Hne.
  apply regular_forallb in Hreg.
  destruct (join_regular_head x more) as [Hj _]; [now inversion Hreg|].
  assert (Ht : project_target cwd root action (Some name)
                 (Some (join (x :: more))) = Normal (projectRoot, resolved)).
  { unfold project_target. cbn [text_or_empty param_or].
    destruct action; destruct name; try congruence;
      destruct (join (x :: more)) eqn:E; try congruence; exact Hres. }
  pose proof (resolve_idempotent cwd [root; basename name] Hcwd) as Hcan.
  fold projectRoot in Hcan.
  assert (Hwr : workspace_root cwd projectRoot = projectRoot) by exact Hcan.
  assert (Hin : strictly_inside (workspace_root cwd projectRoot) resolved = true).
  { rewrite Hwr. unfold strictly_inside, startsWith, resolved, sep.
    apply prefix_app_assoc. }
  assert (Hcanres : canonical cwd resolved).
  { destruct (resolveWorkspacePath_result cwd root name (join (x :: more))
                projectRoot resolved Hres) as (_ & -> & _).
    now apply resolve_idempotent. }
  pose proof (dirname_inside cwd projectRoot resolved Hcwd Hcanres Hin) as Hdir.
  rewrite Hwr in Hdir, Hin.
  eapply Forall_impl;
    [|exact (handle_project_calls cwd root disk action (Some name)
               (Some (join (x :: more))) projectRoot resolved Ht)].
  intros call [Hp | [Hp | ->]].
  - rewrite Hp. unfold contained. unfold strictly_inside in Hin.
    now rewrite Hin, orb_true_r.
  - rewrite Hp. unfold contained. now rewrite String.eqb_refl.
  - exact Hdir.
Qed.

Lemma plain_project_request_stays_in_project_witness :
  Forall (fun call =>
            contained "/srv/app/workspaces/demo" (fs_path call) = true)
    (snd (handle_project "/srv/app" "/srv/app/workspaces" ExampleFiles.disk
            (WriteFile (Some "export {}")) (Some "team/demo")
            (Some (join ["src"; "util"; "sum.js"])) [])).
Proof.
  apply (plain_project_request_stays_in_project "/srv/app"
           "/srv/app/workspaces" ExampleFiles.disk
           (WriteFile (Some "export {}")) "team/demo" "src" ["util"; "sum.js"]);
    reflexivity.
Defined.

(** * The Judge0 request *)

Module Judge0Facts.
Import Judge0.



Lemma assign_proto (value : string) (h : headers) :
  assign proto value h = h.
Proof. reflexivity. Qed.

Lemma property_assign_same (name value : string) (h : headers) :
  (name =? proto) = false ->
  property name (assign name value h) = Some value.
Proof.
  intros Hp. unfold assign. rewrite Hp. destruct (existsb _ h) eqn:E.
  - induction h as [|[k v] h IH]; [discriminate|].
    simpl in *. destruct (k =? name) eqn:Ek.
    + simpl. now rewrite String.eqb_refl.
    + simpl. rewrite Ek. now apply IH.
  - induction h as [|[k v] h IH]; simpl in *.
    + now rewrite String.eqb_refl.
    + apply orb_false_elim in E as [-> E]. now apply IH.
Qed.

Lemma property_assign_other (name other value : string) (h : headers) :
  (name =? other) = false ->
  property other (assign name value h) = property other h.
Proof.
  intros Hne. unfold assign. destruct (name =? proto); [reflexivity|].
  destruct (existsb _ h).
  - induction h as [|[k v] h IH]; [reflexivity|].
    simpl. destruct (k =? name) eqn:Ek.
    + apply String.eqb_eq in Ek. subst k. simpl. now rewrite Hne, IH.
    + simpl. now rewrite IH.
  - induction h as [|[k v] h IH]; simpl.
    + now rewrite Hne.
    + now rewrite IH.
Qed.

(** Assigning under ['__proto__'] or under another name leaves the object
    without a property of the name ['__proto__'] if it had none. *)
Lemma property_proto_assign (name value : string) (h : headers) :
  property proto h = None -> property proto (assign name value h) = None.
Proof.
  intros H. destruct (name =? proto) eqn:E.
  - apply String.eqb_eq in E. subst name. now rewrite assign_proto.
  - now rewrite (property_assign_other _ _ _ _ E).
Qed.

End Judge0Facts.

Import Judge0 Judge0Facts.


(** X20.  What the headers object handed to [fetch] holds as its own
    property under any name.  Under ['__proto__'] it holds nothing,
    whatever is configured: a key or a host value configured under that
    name is dropped, because the assignment creates no property.  Under
    any other name it holds the host value if the host header is
    configured under that name, else the key if a key is configured under
    that name (['X-Auth-Token'] unless a name is configured), else the
    JSON content type under ['Content-Type'], else nothing.  The later
    assignment wins when two names coincide. *)
Theorem request_header (env : config) (name : string) :
  property name (request_headers env)
  = if name =? proto then None
    else if host_configured env && (JUDGE0_HOST_HEADER env =? name)
         then Some (JUDGE0_HOST_VALUE env)
         else if key_configured env && (key_header env =? name)
              then Some (JUDGE0_KEY env)
              else if "Content-Type" =? name then Some "application/json"
                   else None.
Proof.
  unfold request_headers.
  destruct (name =? proto) eqn:Ep.
  - apply String.eqb_eq in Ep. subst name.
    destruct (host_configured env), (key_configured env);
      repeat apply property_proto_assign; reflexivity.
  - destruct (host_configured env); cbn [andb].
    + destruct (JUDGE0_HOST_HEADER env =? name) eqn:Eh.
      * apply String.eqb_eq in Eh. subst name.
        now apply property_assign_same.
      * rewrite (property_assign_other _ _ _ _ Eh).
        destruct (key_configured env); cbn [andb]; [|reflexivity].
        destruct (key_header env =? name) eqn:Ek.
        -- apply String.eqb_eq in Ek. subst name.
           now apply property_assign_same.
        -- now rewrite (property_assign_other _ _ _ _ Ek).
    + destruct (key_configured env); cbn [andb]; [|reflexivity].
      destruct (key_header env =? name) eqn:Ek.
      * apply String.eqb_eq in Ek. subst name. now apply property_assign_same.
      * now rewrite (property_assign_other _ _ _ _ Ek).
Qed.

(** ** The session properties at concrete sessions *)

Lemma frames_are_the_output_witness :
  ws_sent
    (snd (Example.run Example.quiet FirstRevision
            [ShellOutput "$ "; Inbound "ls"; ShellOutput "a.txt"; ShellExit;
             ShellOutput "logout"] Example.session))
  = ["$ "; "a.txt"; "logout"].
Proof.
  apply (frames_are_the_output Example.cwd Example.WORKSPACE_ROOT
           Example.existsSync JsonText.JSON_parse Example.quiet
           "linux" "/bin/sh" FirstRevision
           [ShellOutput "$ "; Inbound "ls"; ShellOutput "a.txt"; ShellExit;
            ShellOutput "logout"] Example.session);
    reflexivity.
Defined.

Lemma writes_are_the_input_witness :
  pty_written
    (snd (Example.run Example.strict ProjectScoped
            [Inbound "ls"; ShellOutput "a.txt"; Inbound "1"; Inbound "{}"]
            Example.session))
  = ["ls"; "1"; "{}"].
Proof.
  apply (writes_are_the_input Example.cwd Example.WORKSPACE_ROOT
           Example.existsSync JsonText.JSON_parse Example.strict
           "linux" "/bin/sh" ProjectScoped
           [Inbound "ls"; ShellOutput "a.txt"; Inbound "1"; Inbound "{}"]
           Example.session);
    vm_compute; reflexivity.
Defined.

Lemma refused_connection_stays_inert_witness :
  pty_spawned
    (snd (Example.run Example.quiet SingleWorkspace
            [Connection (mkRequest None (Some "ghost")); Inbound "ls";
             ShellOutput "x"; ConnectionClosed] fresh))
  = [].
Proof.
  apply (refused_connection_stays_inert Example.cwd Example.WORKSPACE_ROOT
           Example.existsSync JsonText.JSON_parse Example.quiet
           "linux" "/bin/sh" SingleWorkspace (mkRequest None (Some "ghost"))
           "/srv/app/workspaces/ghost"
           [Inbound "ls"; ShellOutput "x"; ConnectionClosed]);
    vm_compute; reflexivity.
Defined.

Lemma one_shell_one_kill_witness :
  pty_kills
    (snd (Example.run Example.kill_raises ProjectScoped
            [Connection Example.demo; Inbound "ls"; ConnectionClosed;
             ShellOutput "late"; ConnectionClosed; ShellExit] fresh))
  = 1.
Proof.
  apply (one_shell_one_kill Example.cwd Example.WORKSPACE_ROOT
           Example.existsSync JsonText.JSON_parse Example.kill_raises
           "linux" "/bin/sh" ProjectScoped Example.demo
           [Inbound "ls"; ConnectionClosed; ShellOutput "late";
            ConnectionClosed; ShellExit]).
  reflexivity.
Defined.

Lemma outside_sandbox_is_server_error_witness :
  Example.step Example.quiet SingleWorkspace
    (Connection (mkRequest None (Some "../../etc"))) fresh
  = (Normal tt, refused "Server error").
Proof.
  apply (outside_sandbox_is_server_error Example.cwd Example.WORKSPACE_ROOT
           Example.existsSync JsonText.JSON_parse Example.quiet
           "linux" "/bin/sh" (mkRequest None (Some "../../etc"))
           outside_workspace).
  vm_compute; reflexivity.
Defined.

Lemma spawn_failure_witness :
  step Example.cwd Example.WORKSPACE_ROOT Example.existsSync
    JsonText.JSON_parse (mkLibrary false true (fun _ _ => false) false)
    "linux" "/bin/sh" ProjectScoped (Connection Example.demo) fresh
  = (Throw LibraryError, fresh).
Proof.
  apply (spawn_failure Example.cwd Example.WORKSPACE_ROOT Example.existsSync
           JsonText.JSON_parse (mkLibrary false true (fun _ _ => false) false)
           "linux" "/bin/sh" ProjectScoped Example.demo
           "/srv/app/workspaces/demo");
    vm_compute; reflexivity.
Defined.
